(** * Kindle clippings parser (src/main.py): a shallow embedding and its properties.

    Python strings are sequences of Unicode code points; they are modelled as
    lists of code points ([N]).  The parser object ([KindleParser]) is a
    record that the operations thread through a small state-and-exception
    monad: an operation returns the (possibly mutated) parser together with
    either a value or the exception it raised. *)

From Stdlib Require Import NArith ZArith String Ascii Decimal Sorted.
From Stdlib Require Import DecimalFacts DecimalNat.
From stdpp Require Import base option list gmap.
From Equations Require Import Equations.

(** ** Strings *)

Abbreviation pystr := (list N).

(** A string literal of the source, as code points. *)
Definition py (s : string) : pystr := List.map N_of_ascii (list_ascii_of_string s).

Definition SPACE : N := 32.
Definition NEWLINE : N := 10.
Definition LPAREN : N := 40.
Definition RPAREN : N := 41.
Definition COMMA : N := 44.
Definition HYPHEN : N := 45.
Definition UNDERSCORE : N := 95.

(** [ord(char) < 128] *)
Definition is_ascii (c : N) : bool := (c <? 128)%N.

(** [KindleParser.clean_text]:
    [''.join(char if ord(char) < 128 else ' ' for char in text)] *)
Definition clean_char (c : N) : N := if is_ascii c then c else SPACE.

Definition clean_text (text : pystr) : pystr := List.map clean_char text.

(** [str.isspace] on one code point, which is the set [str.strip()] removes:
    the ASCII whitespace (TAB, LF, VT, FF, CR, FS, GS, RS, US, SPACE) and the
    Unicode white space characters. *)
Definition isspace (c : N) : bool :=
  ((9 <=? c) && (c <=? 13) || (28 <=? c) && (c <=? 32)
   || (c =? 133) || (c =? 160) || (c =? 5760)
   || (8192 <=? c) && (c <=? 8202)
   || (c =? 8232) || (c =? 8233) || (c =? 8239) || (c =? 8287)
   || (c =? 12288))%N.

Fixpoint drop_while (p : N -> bool) (s : pystr) : pystr :=
  match s with
  | [] => []
  | c :: s' => if p c then drop_while p s' else s
  end.

Fixpoint take_while (p : N -> bool) (s : pystr) : pystr :=
  match s with
  | [] => []
  | c :: s' => if p c then c :: take_while p s' else []
  end.

Definition lstrip_by (p : N -> bool) (s : pystr) : pystr := drop_while p s.
Definition rstrip_by (p : N -> bool) (s : pystr) : pystr :=
  rev (drop_while p (rev s)).

(** [s.strip()] *)
Definition strip (s : pystr) : pystr := rstrip_by isspace (lstrip_by isspace s).

(** [s.rstrip(')')] *)
Definition rstrip_rparen (s : pystr) : pystr := rstrip_by (N.eqb RPAREN) s.

(** [s.startswith(pre)], returning what follows the prefix. *)
Fixpoint after_prefix (pre s : pystr) : option pystr :=
  match pre, s with
  | [], _ => Some s
  | _ :: _, [] => None
  | a :: pre', c :: s' => if (a =? c)%N then after_prefix pre' s' else None
  end.

(** The leftmost occurrence of [sep] in [s]: the text before it and the text
    after it. *)
Fixpoint find_sep (sep s : pystr) : option (pystr * pystr) :=
  match after_prefix sep s with
  | Some rest => Some ([], rest)
  | None =>
      match s with
      | [] => None
      | c :: s' =>
          match find_sep sep s' with
          | Some (before, rest) => Some (c :: before, rest)
          | None => None
          end
      end
  end.

(** [s.split(sep)] for a non-empty separator: cut at the leftmost occurrence
    and split what follows it.  (Python raises [ValueError] on an empty
    separator; every separator in the source is a non-empty constant, and the
    model returns [[s]] there.) *)
Equations? split (sep s : pystr) : list pystr by wf (length s) lt :=
  split [] s := [s];
  split (a :: sep') s with Equations.Prop.Logic.inspect (find_sep (a :: sep') s) => {
    | exist _ None _ := [s];
    | exist _ (Some (before, rest)) Hfind := before :: split (a :: sep') rest }.
Proof.
  clear split. revert before Hfind.
  induction s as [|c s IH]; intros before; [discriminate|].
  cbn [find_sep after_prefix].
  destruct (a =? c)%N; [destruct (after_prefix sep' s) as [r|] eqn:E|]; cbn iota.
  - intros [= _ <-]. clear IH. revert s E.
    induction sep' as [|b sep' IHs]; intros [|d s]; simpl;
      try (intros [= <-]; simpl; lia).
    destruct (b =? d)%N; [|discriminate]. intros E. apply IHs in E. simpl in *. lia.
  - destruct (find_sep (a :: sep') s) as [[b r]|]; [|discriminate].
    intros [= _ <-]. specialize (IH b eq_refl). simpl; lia.
  - destruct (find_sep (a :: sep') s) as [[b r]|]; [|discriminate].
    intros [= _ <-]. specialize (IH b eq_refl). simpl; lia.
Qed.

(** [sep.join(parts)] *)
Fixpoint join (sep : pystr) (parts : list pystr) : pystr :=
  match parts with
  | [] => []
  | [p] => p
  | p :: rest => p ++ sep ++ join sep rest
  end.

(** [enumerate(l)] *)
Fixpoint enumerate_from {A} (i : nat) (l : list A) : list (nat * A) :=
  match l with
  | [] => []
  | x :: l' => (i, x) :: enumerate_from (S i) l'
  end.

Definition enumerate {A} (l : list A) : list (nat * A) := enumerate_from 0 l.

(** [str(n)] for a non-negative integer: its decimal digits. *)
Fixpoint uint_digits (d : Decimal.uint) : pystr :=
  match d with
  | Nil => []
  | D0 d => 48%N :: uint_digits d
  | D1 d => 49%N :: uint_digits d
  | D2 d => 50%N :: uint_digits d
  | D3 d => 51%N :: uint_digits d
  | D4 d => 52%N :: uint_digits d
  | D5 d => 53%N :: uint_digits d
  | D6 d => 54%N :: uint_digits d
  | D7 d => 55%N :: uint_digits d
  | D8 d => 56%N :: uint_digits d
  | D9 d => 57%N :: uint_digits d
  end.

Definition str_of_nat (n : nat) : pystr := uint_digits (Nat.to_uint n).

(** The delimiter of [parse_clippings]: ten equals signs. *)
Definition DELIM : pystr := Eval cbv in py "==========".

(** [parts[0]] and [parts[-1]] of a list that [split] returned. *)
Definition first_part (parts : list pystr) : pystr := default [] (head parts).
Definition last_part (parts : list pystr) : pystr := default [] (last parts).

(** [KindleParser.parse_book_info] *)
Definition parse_book_info (book_info : pystr) : pystr * list pystr :=
  let parts := split [LPAREN] book_info in
  let title := strip (first_part parts) in
  let authors := List.map strip (split [COMMA] (rstrip_rparen (last_part parts))) in
  (title, authors).

(** The truth value of a string: [if entry:] *)
Definition nonempty (s : pystr) : bool := match s with [] => false | _ => true end.

(** The blocks [parse_clippings] hands to [parse_entry]: the pieces of the
    text between delimiters, trimmed, the empty ones skipped, each with the
    index [enumerate] gave its piece. *)
Definition entry_blocks (cleaned_content : pystr) : list (nat * pystr) :=
  List.filter (fun ie => nonempty (snd ie))
    (List.map (fun ie => (fst ie, strip (snd ie)))
       (enumerate (split DELIM cleaned_content))).

(** [sep] occurs in [s] (as a contiguous substring). *)
Definition occurs (sep s : pystr) : Prop :=
  exists before rest, s = before ++ sep ++ rest.

(** Cutting at a single character. *)
Definition is_not (c : N) (x : N) : bool := negb (x =? c)%N.

(** The text before the first [c] (the whole text when there is none). *)
Definition before_first (c : N) (s : pystr) : pystr := take_while (is_not c) s.

(** The text after the last [c] (the whole text when there is none). *)
Definition after_last (c : N) (s : pystr) : pystr :=
  rev (take_while (is_not c) (rev s)).

(** The 7-bit printable range, in the words of the specification: SPACE
    (32) up to TILDE (126). *)
Definition printable_7bit (c : N) : bool := ((32 <=? c) && (c <=? 126))%N.

(** A delimiter line, in the words of the specification: a line that, but
    for surrounding white space, is ten equals signs. *)
Definition is_delimiter_line (line : pystr) : bool :=
  bool_decide (strip line = DELIM).

(** A header line as the e-reader writes it: the title, a space, and the
    authors between parentheses, separated by a comma and a space. *)
Definition format_header (title : pystr) (authors : list pystr) : pystr :=
  title ++ py " (" ++ join (py ", ") authors ++ [RPAREN].







(** A pattern that can only match at a given first character. *)
Definition needs_first {A} (a : N) (match_at : pystr -> option A) : Prop :=
  match_at [] = None /\ forall c s, c <> a -> match_at (c :: s) = None.

(** ** What the Python runtime supplies

    The source calls into the standard library for things whose tables are
    not part of the repository; the embedding takes them as parameters. *)
Class Runtime := {
  (** [datetime.datetime] *)
  datetime : Type;
  (** [datetime.strptime(text, '%A, %B %d, %Y %I:%M:%S %p')]: the timestamp,
      or the message of the [ValueError] it raises. *)
  strptime : pystr -> pystr + datetime;
  (** [str.isalnum] on the code points from 128 up (the Unicode part of the
      regular-expression class [\w]). *)
  isalnum_hi : N -> bool;
  (** The value of a Unicode decimal digit from 128 up (the Unicode part of
      [\d], which [int] also accepts). *)
  decimal_hi : N -> option N;
  (** [hashlib.md5(entry.encode()).hexdigest()] *)
  md5_hexdigest : pystr -> pystr;
}.

Section Parser.
Context `{RT : Runtime}.

(** ** Data model (the dataclasses of the source) *)

Record Location := {
  start : Z;
  end_ : option Z;
}.

Record Note := {
  note_content : pystr;
  note_date_added : datetime;
  note_page : option Z;
  note_location : option Location;
}.

Record Highlight := {
  hl_content : pystr;
  hl_date_added : datetime;
  hl_page : option Z;
  hl_note : option Note;
  hl_location : option Location;
}.

(** The dict [{"location": ..., "date_added": ..., "page": ...}] of
    [add_bookmark]. *)
Record Bookmark := {
  bm_location : option Location;
  bm_date_added : datetime;
  bm_page : option Z;
}.

Record Book := {
  title : pystr;
  authors : list pystr;
  highlights : list Highlight;
  notes : list Note;
  bookmarks : list Bookmark;
}.

Record Error := {
  line_number : nat;
  error_message : pystr;
}.

(** The attributes of a [KindleParser] object.  [books] is a dict keyed by
    title; only lookups and insertions are modelled (not the insertion order
    that the JSON output follows). *)
Record KindleParser := {
  books : gmap pystr Book;
  errors : list Error;
  processed_entries : gset pystr;
  last_processed_timestamp : option datetime;
}.

(** [KindleParser.__init__] *)
Definition new_parser : KindleParser :=
  {| books := ∅; errors := []; processed_entries := ∅;
     last_processed_timestamp := None |}.

Definition set_books (bs : gmap pystr Book) (st : KindleParser) : KindleParser :=
  {| books := bs; errors := errors st;
     processed_entries := processed_entries st;
     last_processed_timestamp := last_processed_timestamp st |}.

Definition set_errors (es : list Error) (st : KindleParser) : KindleParser :=
  {| books := books st; errors := es;
     processed_entries := processed_entries st;
     last_processed_timestamp := last_processed_timestamp st |}.

(** The ledger fields, as [read_processed_entries] assigns them. *)
Definition set_ledger (ids : gset pystr) (ts : option datetime)
    (st : KindleParser) : KindleParser :=
  {| books := books st; errors := errors st;
     processed_entries := ids; last_processed_timestamp := ts |}.

Definition set_highlights (hs : list Highlight) (b : Book) : Book :=
  {| title := title b; authors := authors b; highlights := hs;
     notes := notes b; bookmarks := bookmarks b |}.

Definition set_notes (ns : list Note) (b : Book) : Book :=
  {| title := title b; authors := authors b; highlights := highlights b;
     notes := ns; bookmarks := bookmarks b |}.

Definition set_bookmarks (bms : list Bookmark) (b : Book) : Book :=
  {| title := title b; authors := authors b; highlights := highlights b;
     notes := notes b; bookmarks := bms |}.

(** [highlight.note = note] *)
Definition set_note (n : Note) (h : Highlight) : Highlight :=
  {| hl_content := hl_content h; hl_date_added := hl_date_added h;
     hl_page := hl_page h; hl_note := Some n; hl_location := hl_location h |}.

(** ** Exceptions and the parser monad *)

Inductive exn :=
| ValueError (msg : pystr)
| AttributeError (msg : pystr).

(** [str(e)] *)
Definition exn_str (e : exn) : pystr :=
  match e with ValueError msg | AttributeError msg => msg end.

(** A method of the parser: it may mutate the parser and then either returns
    or raises; the mutations made before a raise stay. *)
Definition M (A : Type) : Type := KindleParser -> (exn + A) * KindleParser.

Definition ret {A} (x : A) : M A := fun st => (inr x, st).
Definition raise {A} (e : exn) : M A := fun st => (inl e, st).
Definition bind {A B} (m : M A) (k : A -> M B) : M B :=
  fun st =>
    match m st with
    | (inr x, st') => k x st'
    | (inl e, st') => (inl e, st')
    end.
Definition modify (f : KindleParser -> KindleParser) : M unit :=
  fun st => (inr tt, f st).

Notation "'do' x <- m ;; k" := (bind m (fun x => k))
  (at level 10, x name, m at level 99, k at level 200).

(** [try: m  except Exception as e: handler(e)] *)
Definition try_except (m : M unit) (handler : exn -> M unit) : M unit :=
  fun st =>
    match m st with
    | (inr x, st') => (inr x, st')
    | (inl e, st') => handler e st'
    end.

(** ** The metadata line: four regular-expression searches *)

Definition is_alnum (c : N) : bool :=
  ((48 <=? c) && (c <=? 57) || (65 <=? c) && (c <=? 90)
   || (97 <=? c) && (c <=? 122) || (128 <=? c) && isalnum_hi c)%N.

(** [\w] *)
Definition is_word (c : N) : bool := is_alnum c || (c =? UNDERSCORE)%N.

Definition digit_value (c : N) : option N :=
  if ((48 <=? c) && (c <=? 57))%N then Some (c - 48)%N
  else if (128 <=? c)%N then decimal_hi c else None.

(** [\d] *)
Definition is_digit (c : N) : bool :=
  match digit_value c with Some _ => true | None => false end.

(** [.] (without DOTALL): anything but a newline *)
Definition is_dot (c : N) : bool := negb (c =? NEWLINE)%N.

(** [int(digits)] on a run of decimal digits (an unbounded integer; the
    interpreter's cap on the number of digits is not modelled). *)
Definition int_of_digits (digits : pystr) : Z :=
  fold_left (fun acc c => (10 * acc + Z.of_N (default 0%N (digit_value c)))%Z)
    digits 0%Z.

(** [re.search]: the match at the leftmost position where the pattern
    matches, trying every position up to the end of the string. *)
Fixpoint re_search {A} (match_at : pystr -> option A) (s : pystr) : option A :=
  match match_at s with
  | Some r => Some r
  | None =>
      match s with
      | [] => None
      | _ :: s' => re_search match_at s'
      end
  end.

Definition nonempty_run (run : pystr) : option pystr :=
  match run with [] => None | _ => Some run end.

(** [Your (\w+)] at the start of [s]: group 1. *)
Definition match_entry_type (s : pystr) : option pystr :=
  rest ← after_prefix (py "Your ") s;
  nonempty_run (take_while is_word rest).

(** [page (\d+)] at the start of [s]: group 1. *)
Definition match_page (s : pystr) : option pystr :=
  rest ← after_prefix (py "page ") s;
  nonempty_run (take_while is_digit rest).

(** [Location (\d+)(?:-(\d+))?] at the start of [s]: groups 1 and 2. *)
Definition match_location (s : pystr) : option (pystr * option pystr) :=
  rest ← after_prefix (py "Location ") s;
  first ← nonempty_run (take_while is_digit rest);
  Some (first,
        match drop_while is_digit rest with
        | c :: rest' =>
            if (c =? HYPHEN)%N then nonempty_run (take_while is_digit rest')
            else None
        | [] => None
        end).

(** [Added on (.+)$] at the start of [s]: group 1.  The greedy run stops at
    the first newline, and [$] accepts the end of the string or a single
    final newline. *)
Definition match_date (s : pystr) : option pystr :=
  rest ← after_prefix (py "Added on ") s;
  run ← nonempty_run (take_while is_dot rest);
  match drop_while is_dot rest with
  | [] => Some run
  | [_] => Some run
  | _ => None
  end.

Definition invalid_metadata (metadata : pystr) : pystr :=
  py "Invalid metadata format: " ++ metadata.

(** [KindleParser.parse_metadata] *)
Definition parse_metadata (metadata : pystr)
    : exn + (pystr * option Z * option Location * datetime) :=
  let entry_type_match := re_search match_entry_type metadata in
  let page_match := re_search match_page metadata in
  let location_match := re_search match_location metadata in
  let date_match := re_search match_date metadata in
  match entry_type_match, date_match with
  | Some entry_type, Some date_text =>
      let page := int_of_digits <$> page_match in
      let location :=
        (fun g => {| start := int_of_digits (fst g);
                     end_ := int_of_digits <$> snd g |}) <$> location_match in
      match strptime date_text with
      | inl msg => inl (ValueError msg)
      | inr date_added => inr (entry_type, page, location, date_added)
      end
  | _, _ => inl (ValueError (invalid_metadata metadata))
  end.

(** ** Classifying and merging entries *)

(** [KindleParser.get_or_create_book] *)
Definition get_or_create_book (title : pystr) (authors : list pystr) : M Book :=
  fun st =>
    match books st !! title with
    | Some book => (inr book, st)
    | None =>
        let book := {| title := title; authors := authors; highlights := [];
                       notes := []; bookmarks := [] |} in
        (inr book, set_books (<[title := book]> (books st)) st)
    end.

(** A mutation of the Book object that [get_or_create_book] returned: the
    object is the one stored under [title] in [self.books]. *)
Definition store_book (title : pystr) (book : Book) : M unit :=
  modify (fun st => set_books (<[title := book]> (books st)) st).

(** [KindleParser.add_highlight] *)
Definition add_highlight (book_title : pystr) (authors : list pystr)
    (content : pystr) (location : option Location) (date_added : datetime)
    (page : option Z) : M unit :=
  do book <- get_or_create_book book_title authors ;;
  let highlight :=
    {| hl_content := content; hl_date_added := date_added; hl_page := page;
       hl_note := None; hl_location := location |} in
  store_book book_title (set_highlights (highlights book ++ [highlight]) book).

Definition NO_START : pystr :=
  Eval cbv in py "'NoneType' object has no attribute 'start'".

(** [h.location.start == note.location.start]: the left operand is evaluated
    first, and [.start] of an absent location raises [AttributeError]. *)
Definition same_start (h : Highlight) (note : Note) : exn + bool :=
  match hl_location h with
  | None => inl (AttributeError NO_START)
  | Some hloc =>
      match note_location note with
      | None => inl (AttributeError NO_START)
      | Some nloc => inr (start hloc =? start nloc)%Z
      end
  end.

(** [next((h for h in hs if h.location.start == note.location.start), None)]:
    the position in [hs] of the highlight it returns. *)
Fixpoint next_match (note : Note) (hs : list Highlight) : exn + option nat :=
  match hs with
  | [] => inr None
  | h :: hs' =>
      match same_start h note with
      | inl e => inl e
      | inr true => inr (Some 0)
      | inr false =>
          match next_match note hs' with
          | inl e => inl e
          | inr None => inr None
          | inr (Some k) => inr (Some (S k))
          end
      end
  end.

(** [KindleParser.add_note].  The search runs over [reversed(book.highlights)];
    position [k] there is index [len - 1 - k] of [book.highlights]. *)
Definition add_note (book_title : pystr) (authors : list pystr)
    (content : pystr) (date_added : datetime) (location : option Location)
    (page : option Z) : M unit :=
  do book <- get_or_create_book book_title authors ;;
  let note :=
    {| note_content := content; note_date_added := date_added;
       note_page := page; note_location := location |} in
  match next_match note (rev (highlights book)) with
  | inl e => raise e
  | inr (Some k) =>
      let i := length (highlights book) - 1 - k in
      store_book book_title
        (set_highlights (alter (set_note note) i (highlights book)) book)
  | inr None =>
      store_book book_title (set_notes (notes book ++ [note]) book)
  end.

(** [KindleParser.add_bookmark] *)
Definition add_bookmark (book_title : pystr) (authors : list pystr)
    (location : option Location) (date_added : datetime) (page : option Z)
    : M unit :=
  do book <- get_or_create_book book_title authors ;;
  let bookmark :=
    {| bm_location := location; bm_date_added := date_added;
       bm_page := page |} in
  store_book book_title (set_bookmarks (bookmarks book ++ [bookmark]) book).

Definition invalid_entry (line_number : nat) : pystr :=
  py "Invalid entry format at line " ++ str_of_nat line_number.

(** [KindleParser.parse_entry] *)
Definition parse_entry (entry : pystr) (line_number : nat) : M unit :=
  let lines := split [NEWLINE] entry in
  if length lines <? 2 then raise (ValueError (invalid_entry line_number))
  else
    let book_info := strip (nth 0 lines []) in
    let metadata := strip (nth 1 lines []) in
    let '(book_title, authors) := parse_book_info book_info in
    match parse_metadata metadata with
    | inl e => raise e
    | inr (entry_type, page, location, date_added) =>
        let content :=
          if 2 <? length lines then strip (join [NEWLINE] (drop 2 lines))
          else [] in
        if bool_decide (entry_type = py "Highlight") then
          add_highlight book_title authors content location date_added page
        else if bool_decide (entry_type = py "Note") then
          add_note book_title authors content date_added location page
        else if bool_decide (entry_type = py "Bookmark") then
          add_bookmark book_title authors location date_added page
        else ret tt
    end.

(** [self.errors.append(Error(i, str(e)))] *)
Definition record_error (i : nat) (e : exn) : M unit :=
  modify (fun st =>
    set_errors (errors st ++ [{| line_number := i; error_message := exn_str e |}]) st).

(** The body of the loop of [parse_clippings] for one piece of the split. *)
Definition parse_block (ie : nat * pystr) : M unit :=
  let entry := strip (snd ie) in
  if nonempty entry then
    try_except (parse_entry entry (fst ie)) (record_error (fst ie))
  else ret tt.

(** The body of the loop for a block that is not empty: [parse_entry] under
    the [try]. *)
Definition parse_entry_logged (ie : nat * pystr) : M unit :=
  try_except (parse_entry (snd ie) (fst ie)) (record_error (fst ie)).

(** [for x in l: body(x)] *)
Fixpoint for_each {A} (body : A -> M unit) (l : list A) : M unit :=
  match l with
  | [] => ret tt
  | x :: l' => do _u <- body x ;; for_each body l'
  end.

(** [KindleParser.parse_clippings] *)
Definition parse_clippings (content : pystr) : M unit :=
  let cleaned_content := clean_text content in
  let entries := split DELIM cleaned_content in
  for_each parse_block (enumerate entries).

(** ** The ledger of processed entries *)

(** [KindleParser.generate_entry_id] *)
Definition generate_entry_id (entry : pystr) : pystr := md5_hexdigest entry.

(** [KindleParser.is_processed] *)
Definition is_processed (entry_id : pystr) : M bool :=
  fun st => (inr (bool_decide (entry_id ∈ processed_entries st)), st).

(** [KindleParser.mark_as_processed]; [now] is what [datetime.now()]
    returns. *)
Definition mark_as_processed (now : datetime) (entry_id : pystr) : M unit :=
  modify (fun st =>
    set_ledger ({[entry_id]} ∪ processed_entries st) (Some now) st).

(** ** Predicates the properties are stated with *)

(** A method that neither reads nor writes the ledger fields: run on a parser
    with another ledger, it gives the same result and the same parser, but for
    that ledger. *)
Definition ledger_blind {A} (m : M A) : Prop :=
  forall ids ts st,
    m (set_ledger ids ts st) = (fst (m st), set_ledger ids ts (snd (m st))).

(** Every book of [st] is still there in [st'], under the same title, with
    the authors it had. *)
Definition authors_kept (st st' : KindleParser) : Prop :=
  forall t b, books st !! t = Some b ->
    exists b', books st' !! t = Some b' /\ authors b' = authors b.



(** A highlight that has a location whose start differs from that of
    [loc]. *)
Definition other_start (loc : Location) (h : Highlight) : Prop :=
  exists hloc, hl_location h = Some hloc /\ start hloc <> start loc.


(** The dispatch of [parse_entry] on the entry type. *)
Definition store_entry (book_title : pystr) (authors : list pystr)
    (content : pystr) (meta : pystr * option Z * option Location * datetime)
    : M unit :=
  let '(entry_type, page, location, date_added) := meta in
  if bool_decide (entry_type = py "Highlight") then
    add_highlight book_title authors content location date_added page
  else if bool_decide (entry_type = py "Note") then
    add_note book_title authors content date_added location page
  else if bool_decide (entry_type = py "Bookmark") then
    add_bookmark book_title authors location date_added page
  else ret tt.

(** The book [get_or_create_book] returns for a title: the one stored under
    it, or a new one with the given authors and nothing else. *)
Definition book_or_new (bs : gmap pystr Book) (title : pystr)
    (authors : list pystr) : Book :=
  default {| title := title; authors := authors; highlights := [];
             notes := []; bookmarks := [] |} (bs !! title).

(** The ways an entry changes a book: a highlight (with no note) or a
    bookmark or a note is appended, or a note is attached to a highlight
    whose comparison with it gave [True]. *)
Inductive book_step (b : Book) : Book -> Prop :=
| step_highlight h :
    hl_note h = None ->
    book_step b (set_highlights (highlights b ++ [h]) b)
| step_attach note i h :
    highlights b !! i = Some h -> same_start h note = inr true ->
    book_step b (set_highlights (alter (set_note note) i (highlights b)) b)
| step_note note :
    book_step b (set_notes (notes b ++ [note]) b)
| step_bookmark bm :
    book_step b (set_bookmarks (bookmarks b ++ [bm]) b).

(** The ways a block changes the parser: one step of the book of one title
    (a new book, if the title has none), or one more error. *)
Inductive parser_step (st : KindleParser) : KindleParser -> Prop :=
| step_book t a b' :
    book_step (book_or_new (books st) t a) b' ->
    parser_step st (set_books (<[t := b']> (books st)) st)
| step_error e :
    parser_step st (set_errors (errors st ++ [e]) st).

(** Every book is stored under its own title. *)
Definition keyed_by_title (st : KindleParser) : Prop :=
  forall t b, books st !! t = Some b -> title b = t.

(** Every note attached to a highlight has a location with the start of the
    location of that highlight. *)
Definition attached_notes_match (st : KindleParser) : Prop :=
  forall t b h n,
    books st !! t = Some b -> h ∈ highlights b -> hl_note h = Some n ->
    exists hloc nloc,
      hl_location h = Some hloc /\ note_location n = Some nloc
      /\ start hloc = start nloc.

(** A highlight without the note attached to it. *)
Definition without_note (h : Highlight) : Highlight :=
  {| hl_content := hl_content h; hl_date_added := hl_date_added h;
     hl_page := hl_page h; hl_note := None; hl_location := hl_location h |}.

(** [b'] is [b] with entries added at the end of its lists, and notes
    attached to its highlights or replaced. *)
Definition book_grows (b b' : Book) : Prop :=
  title b' = title b /\ authors b' = authors b
  /\ List.map without_note (highlights b)
       `prefix_of` List.map without_note (highlights b')
  /\ notes b `prefix_of` notes b'
  /\ bookmarks b `prefix_of` bookmarks b'.

Definition parser_grows (st st' : KindleParser) : Prop :=
  (forall t b, books st !! t = Some b ->
     exists b', books st' !! t = Some b' /\ book_grows b b')
  /\ errors st `prefix_of` errors st'
  /\ processed_entries st' = processed_entries st
  /\ last_processed_timestamp st' = last_processed_timestamp st.

End Parser.

(** ** A runtime to run the model on examples

    Timestamps are kept as their text and accepted when they end in [AM] or
    [PM]; no code point from 128 up is alphanumeric or a digit; the digest is
    the entry itself. *)
Definition sample_strptime (text : pystr) : pystr + pystr :=
  match rev text with
  | 77%N :: 65%N :: _ => inr text
  | 77%N :: 80%N :: _ => inr text
  | _ => inl (py "time data does not match format")
  end.

Definition sample_runtime : Runtime :=
  {| datetime := pystr;
     strptime := sample_strptime;
     isalnum_hi := fun _ => false;
     decimal_hi := fun _ => None;
     md5_hexdigest := fun entry => entry |}.

(** Lines of a clippings file, joined by newlines. *)
Definition text_of_lines (lines : list string) : pystr :=
  join [NEWLINE] (List.map py lines).

(** The end-to-end example of the specification. *)
Definition dune_clippings : pystr := Eval cbv in text_of_lines [
  "Dune (Frank Herbert)";
  "- Your Highlight on page 12 | Location 200-210 | Added on Monday, January 1, 2024 8:00:00 AM";
  "";
  "A spice melange quote.";
  "==========";
  "Dune (Frank Herbert)";
  "- Your Note on Location 200 | Added on Monday, January 1, 2024 8:05:00 AM";
  "";
  "Interesting symbolism.";
  "==========";
  "" ]%string.

Definition dune_parser : KindleParser (RT:=sample_runtime) :=
  snd (parse_clippings dune_clippings new_parser).

Definition dune_book : Book (RT:=sample_runtime) :=
  Eval vm_compute in default
    {| title := []; authors := []; highlights := []; notes := [];
       bookmarks := [] |}
    (books dune_parser !! py "Dune").

(** A later bookmark for the same title, under another author. *)
Definition dune_other_author_clippings : pystr := Eval cbv in text_of_lines [
  "Dune (Brian Herbert)";
  "- Your Bookmark on page 3 | Location 50 | Added on Tuesday, January 2, 2024 9:00:00 PM";
  "";
  "";
  "==========";
  "" ]%string.

(** A highlight, then a note for the same book whose metadata line has a
    page but no location. *)
Definition note_without_location_clippings : pystr := Eval cbv in text_of_lines [
  "Dune (Frank Herbert)";
  "- Your Highlight on page 12 | Location 200-210 | Added on Monday, January 1, 2024 8:00:00 AM";
  "";
  "A spice melange quote.";
  "==========";
  "Dune (Frank Herbert)";
  "- Your Note on page 12 | Added on Monday, January 1, 2024 8:05:00 AM";
  "";
  "Interesting symbolism.";
  "==========";
  "" ]%string.

(** A highlight at location 200, a highlight without a location, then a note
    at location 200. *)
Definition locationless_highlight_clippings : pystr := Eval cbv in text_of_lines [
  "Dune (Frank Herbert)";
  "- Your Highlight on page 12 | Location 200-210 | Added on Monday, January 1, 2024 8:00:00 AM";
  "";
  "A spice melange quote.";
  "==========";
  "Dune (Frank Herbert)";
  "- Your Highlight on page 13 | Added on Monday, January 1, 2024 8:02:00 AM";
  "";
  "Fear is the mind-killer.";
  "==========";
  "Dune (Frank Herbert)";
  "- Your Note on page 12 | Location 200 | Added on Monday, January 1, 2024 8:05:00 AM";
  "";
  "Interesting symbolism.";
  "==========";
  "" ]%string.

(** A timestamp text, and a parser with the book of [dune_clippings]. *)
Definition sample_timestamp : pystr :=
  Eval cbv in py "Monday, January 1, 2024 8:00:00 AM".

Definition sample_location : Location := {| start := 200; end_ := Some 210%Z |}.

(** A block whose entry type is none of the three [parse_entry] stores. *)
Definition clip_metadata : pystr :=
  Eval cbv in py "- Your Clip on page 3 | Added on Monday, January 1, 2024 8:00:00 AM".

(** The highlight of [dune_book], with the note attached to it. *)
Definition dune_highlight : Highlight (RT:=sample_runtime) :=
  Eval vm_compute in default
    (@Build_Highlight sample_runtime [] sample_timestamp None None None)
    (head (highlights dune_book)).

(** A parser whose book has a bookmark and no highlight. *)
Definition emma_parser : KindleParser (RT:=sample_runtime) :=
  snd (add_bookmark (RT:=sample_runtime) (py "Emma") [py "Jane Austen"] None sample_timestamp
         (Some 3%Z) new_parser).

Definition emma_book : Book (RT:=sample_runtime) :=
  Eval vm_compute in default
    {| title := []; authors := []; highlights := []; notes := [];
       bookmarks := [] |}
    (books emma_parser !! py "Emma").

(** The parser of [dune_clippings] after a highlight without a location. *)
Definition two_highlights_parser : KindleParser (RT:=sample_runtime) :=
  snd (add_highlight (RT:=sample_runtime) (py "Dune") [py "Frank Herbert"]
         (py "Fear is the mind-killer.") None sample_timestamp (Some 13%Z)
         dune_parser).

Definition two_highlights_book : Book (RT:=sample_runtime) :=
  Eval vm_compute in default
    {| title := []; authors := []; highlights := []; notes := [];
       bookmarks := [] |}
    (books two_highlights_parser !! py "Dune").

(** * Properties *)

Ltac decide_by_computation :=
  apply (bool_decide_unpack _); vm_compute; exact I.

(** ** Strings *)

Lemma split_step a sep' s :
  split (a :: sep') s =
  match find_sep (a :: sep') s with
  | None => [s]
  | Some (before, rest) => before :: split (a :: sep') rest
  end.
Proof.
  rewrite split_equation_2.
  generalize (Equations.Prop.Logic.inspect (find_sep (a :: sep') s)).
  intros [[[b r]|] E]; simpl; rewrite E; reflexivity.
Qed.

Lemma after_prefix_Some pre s rest :
  after_prefix pre s = Some rest <-> s = pre ++ rest.
Proof.
  revert s; induction pre as [|a pre IH]; intros [|c s]; simpl;
    try (split; congruence).
  destruct (N.eqb_spec a c) as [->|Hne].
  - rewrite IH. split; congruence.
  - split; [discriminate|]. intros [= ? ?]; congruence.
Qed.

Lemma find_sep_Some sep s before rest :
  find_sep sep s = Some (before, rest) -> s = before ++ sep ++ rest.
Proof.
  revert before rest; induction s as [|c s IH]; intros before rest;
    cbn [find_sep];
    destruct (after_prefix sep _) eqn:E;
    try (intros [= <- <-]; by apply after_prefix_Some in E).
  destruct (find_sep sep s) as [[b r]|]; [|discriminate].
  intros [= <- <-]. simpl. f_equal. by apply IH.
Qed.

(** The occurrence [find_sep] returns is the leftmost one. *)
Lemma find_sep_leftmost sep s before rest :
  find_sep sep s = Some (before, rest) ->
  forall x y, s = x ++ sep ++ y -> length before <= length x.
Proof.
  revert before rest; induction s as [|c s IH]; intros before rest;
    cbn [find_sep];
    destruct (after_prefix sep _) eqn:E;
    try (intros [= <- <-] x y _; simpl; lia).
  destruct (find_sep sep s) as [[b r]|] eqn:F; [|discriminate].
  intros [= <- <-] [|c' x] y Hs.
  - simpl in Hs. apply after_prefix_Some in Hs. congruence.
  - injection Hs as -> Hs. simpl. apply le_n_S. eapply IH; eauto.
Qed.

Lemma find_sep_here sep rest : find_sep sep (sep ++ rest) = Some ([], rest).
Proof.
  assert (after_prefix sep (sep ++ rest) = Some rest) as E
    by by apply after_prefix_Some.
  destruct (sep ++ rest); simpl; by rewrite E.
Qed.

Lemma find_sep_None sep s :
  find_sep sep s = None <-> ~ occurs sep s.
Proof.
  split.
  - intros Hnone (x & y & ->). revert Hnone.
    induction x as [|c x IH]; cbn [app].
    + by rewrite find_sep_here.
    + cbn [find_sep].
      destruct (after_prefix sep (c :: x ++ sep ++ y)); [discriminate|].
      destruct (find_sep sep (x ++ sep ++ y)) as [[b r]|]; [discriminate|].
      intros _. by apply IH.
  - intros Hno. destruct (find_sep sep s) as [[b r]|] eqn:E; [|done].
    exfalso. apply Hno. exists b, r. by apply find_sep_Some.
Qed.

(** Induction along the cuts of [split]. *)
Lemma split_cuts_ind a sep' (P : pystr -> list pystr -> Prop) :
  (forall s, find_sep (a :: sep') s = None -> P s [s]) ->
  (forall s before rest,
      find_sep (a :: sep') s = Some (before, rest) ->
      P rest (split (a :: sep') rest) ->
      P s (before :: split (a :: sep') rest)) ->
  forall s, P s (split (a :: sep') s).
Proof.
  intros Hnone Hcut s.
  remember (length s) as n eqn:Hn. revert s Hn.
  induction n as [n IH] using lt_wf_ind. intros s ->.
  rewrite split_step.
  destruct (find_sep (a :: sep') s) as [[b r]|] eqn:E.
  - apply Hcut; [done|]. apply (IH (length r)); [|done].
    apply find_sep_Some in E. subst s. rewrite !length_app. simpl. lia.
  - by apply Hnone.
Qed.

Lemma split_not_nil sep s : split sep s <> [].
Proof.
  destruct sep as [|a sep']; [by simp split|].
  rewrite split_step. by destruct (find_sep _ _) as [[??]|].
Qed.

(** Joining the pieces with the separator gives the text back. *)
Lemma join_split sep s : join sep (split sep s) = s.
Proof.
  destruct sep as [|a sep']; [by simp split|].
  apply (split_cuts_ind a sep' (fun s parts => join (a :: sep') parts = s)).
  - done.
  - intros s' b r E IH. apply find_sep_Some in E. subst s'.
    cbn [join]. rewrite IH.
    pose proof (split_not_nil (a :: sep') r).
    by destruct (split (a :: sep') r).
Qed.

(** No piece contains the separator. *)
Lemma split_pieces_free sep s :
  sep <> [] -> Forall (fun piece => ~ occurs sep piece) (split sep s).
Proof.
  destruct sep as [|a sep']; [done|]. intros _.
  apply (split_cuts_ind a sep'
           (fun _ parts => Forall (fun piece => ~ occurs (a :: sep') piece) parts)).
  - intros s' E. constructor; [|constructor]. by apply find_sep_None.
  - intros s' b r E IH. constructor; [|done].
    intros (x & y & Hb).
    pose proof (find_sep_Some _ _ _ _ E) as Hs.
    pose proof (find_sep_leftmost _ _ _ _ E x (y ++ (a :: sep') ++ r)) as Hle.
    rewrite Hs, Hb in Hle. rewrite <- !app_assoc in Hle.
    specialize (Hle eq_refl). rewrite !length_app in Hle. simpl in Hle. lia.
Qed.

(** A text in which the separator does not occur is not cut. *)
Lemma split_no_occurrence sep s : ~ occurs sep s -> split sep s = [s].
Proof.
  destruct sep as [|a sep']; [by simp split|].
  intros Hno. rewrite split_step. apply find_sep_None in Hno. by rewrite Hno.
Qed.

(** Every cut is made at the leftmost occurrence of the separator in the
    text that remains. *)
Lemma split_leftmost sep s k piece :
  sep <> [] ->
  split sep s !! k = Some piece ->
  forall x y, join sep (drop k (split sep s)) = x ++ sep ++ y ->
  length piece <= length x.
Proof.
  destruct sep as [|a sep']; [done|]. intros _. revert k.
  apply (split_cuts_ind a sep'
     (fun s parts => forall k, parts !! k = Some piece ->
        forall x y, join (a :: sep') (drop k parts) = x ++ (a :: sep') ++ y ->
        length piece <= length x)).
  - intros s' E [|k]; [|done]. intros [= <-] x y Hj. simpl in Hj.
    apply find_sep_None in E. exfalso. apply E. by exists x, y.
  - intros s' b r E IH [|k].
    + intros [= <-] x y Hj. rewrite drop_0 in Hj.
      eapply find_sep_leftmost; [exact E|].
      rewrite <- Hj. apply find_sep_Some in E. rewrite E.
      cbn [join]. rewrite join_split.
      pose proof (split_not_nil (a :: sep') r).
      by destruct (split (a :: sep') r).
    + simpl. apply IH.
Qed.

Lemma take_while_all p s : Forall (fun x => p x = true) s -> take_while p s = s.
Proof. induction 1 as [|x s Hx _ IH]; simpl; [done|]. by rewrite Hx, IH. Qed.

Lemma take_while_stop p s c rest :
  p c = false -> take_while p (s ++ c :: rest) = take_while p s.
Proof.
  intros Hc. induction s as [|x s IH]; simpl; [by rewrite Hc|].
  destruct (p x); [by rewrite IH|done].
Qed.

Lemma take_drop_while p s : take_while p s ++ drop_while p s = s.
Proof.
  induction s as [|x s IH]; simpl; [done|].
  destruct (p x); simpl; [by rewrite IH|done].
Qed.

Lemma is_not_true c x : is_not c x = true <-> x <> c.
Proof. unfold is_not. destruct (N.eqb_spec x c); naive_solver. Qed.

Lemma is_not_same c : is_not c c = false.
Proof. unfold is_not. by rewrite N.eqb_refl. Qed.

Lemma not_elem_is_not c (s : pystr) :
  c ∉ s -> Forall (fun x => is_not c x = true) s.
Proof.
  intros Hc. apply Forall_forall. intros x Hx. apply is_not_true.
  intros ->. by apply Hc.
Qed.

Lemma elem_rev (c : N) (s : pystr) : c ∈ rev s <-> c ∈ s.
Proof. rewrite !list_elem_of_In. symmetry. apply in_rev. Qed.

Lemma not_elem_rev c (s : pystr) : c ∉ s -> c ∉ rev s.
Proof. by rewrite elem_rev. Qed.

Lemma before_first_spec c (pre post : pystr) :
  c ∉ pre -> before_first c (pre ++ c :: post) = pre.
Proof.
  intros Hc. unfold before_first.
  rewrite take_while_stop by apply is_not_same.
  by apply take_while_all, not_elem_is_not.
Qed.

Lemma after_last_spec c (pre post : pystr) :
  c ∉ post -> after_last c (pre ++ c :: post) = post.
Proof.
  intros Hc. unfold after_last.
  rewrite rev_app_distr. simpl. rewrite <- app_assoc. simpl.
  rewrite take_while_stop by apply is_not_same.
  rewrite take_while_all, rev_involutive; [done|].
  by apply not_elem_is_not, not_elem_rev.
Qed.

Lemma before_first_absent c (s : pystr) : c ∉ s -> before_first c s = s.
Proof. intros Hc. by apply take_while_all, not_elem_is_not. Qed.

Lemma after_last_absent c (s : pystr) : c ∉ s -> after_last c s = s.
Proof.
  intros Hc. unfold after_last. rewrite take_while_all, rev_involutive; [done|].
  by apply not_elem_is_not, not_elem_rev.
Qed.

Lemma occurs_char c (s : pystr) : occurs [c] s <-> c ∈ s.
Proof.
  split.
  - intros (x & y & ->). set_solver.
  - intros (x & y & ->)%list_elem_of_split. by exists x, y.
Qed.

(** [find_sep] for a one-character separator. *)
Lemma find_sep_char c s :
  find_sep [c] s =
  match drop_while (is_not c) s with
  | [] => None
  | _ :: rest => Some (take_while (is_not c) s, rest)
  end.
Proof.
  induction s as [|x s IH]; [done|].
  cbn [find_sep after_prefix drop_while take_while]. unfold is_not at 1 3.
  rewrite (N.eqb_sym x c).
  destruct (c =? x)%N; simpl; [done|].
  rewrite IH. by destruct (drop_while (is_not c) s).
Qed.

Lemma first_part_split c s : first_part (split [c] s) = before_first c s.
Proof.
  rewrite split_step, find_sep_char. unfold before_first, first_part.
  pose proof (take_drop_while (is_not c) s) as E.
  destruct (drop_while (is_not c) s); simpl; [|done].
  by rewrite app_nil_r in E.
Qed.

Lemma last_cons_split (b : pystr) sep s :
  last_part (b :: split sep s) = last_part (split sep s).
Proof.
  pose proof (split_not_nil sep s). unfold last_part.
  by destruct (split sep s).
Qed.

Lemma last_part_split c s : last_part (split [c] s) = after_last c s.
Proof.
  apply (split_cuts_ind c [] (fun s parts => last_part parts = after_last c s)).
  - intros s' E. apply find_sep_None in E. rewrite occurs_char in E.
    by rewrite after_last_absent.
  - intros s' b r E IH. rewrite last_cons_split, IH.
    apply find_sep_Some in E. subst s'. simpl.
    unfold after_last. rewrite rev_app_distr. simpl. rewrite <- app_assoc. simpl.
    by rewrite take_while_stop by apply is_not_same.
Qed.

(** What [rstrip_by] removes: the longest run at the end whose characters
    all satisfy the predicate. *)
Lemma rstrip_by_spec p s (kept removed : pystr) :
  s = kept ++ removed ->
  Forall (fun x => p x = true) removed ->
  (forall x, last kept = Some x -> p x = false) ->
  rstrip_by p s = kept.
Proof.
  intros -> Hrem Hkept. unfold rstrip_by. rewrite rev_app_distr.
  assert (forall l k, Forall (fun x => p x = true) l ->
            drop_while p (l ++ k) = drop_while p k) as Hdrop.
  { intros l k. induction 1 as [|x l Hx _ IH]; simpl; [done|]. by rewrite Hx. }
  rewrite Hdrop.
  2:{ apply Forall_forall. intros x Hx. rewrite Forall_forall in Hrem.
      apply Hrem. by apply elem_rev. }
  destruct kept as [|x kept _] using rev_ind; [done|].
  rewrite rev_app_distr. simpl. rewrite (Hkept x); [|by rewrite last_snoc].
  simpl. by rewrite rev_involutive.
Qed.

Lemma rstrip_by_nothing p s :
  (forall x, last s = Some x -> p x = false) -> rstrip_by p s = s.
Proof.
  intros H. apply (rstrip_by_spec p s s []); [by rewrite app_nil_r|done|done].
Qed.

(** ** clean_text *)

Lemma clean_char_ascii c : is_ascii (clean_char c) = true.
Proof. unfold clean_char. by destruct (is_ascii c) eqn:E. Qed.

Lemma clean_char_fixed c : is_ascii c = true -> clean_char c = c.
Proof. unfold clean_char. by intros ->. Qed.

Lemma clean_char_newline c : (NEWLINE =? clean_char c)%N = (NEWLINE =? c)%N.
Proof.
  unfold clean_char, is_ascii. destruct (N.ltb_spec c 128); [done|].
  symmetry. apply N.eqb_neq. unfold NEWLINE. lia.
Qed.

Lemma split_lines_map (f : N -> N) s :
  (forall x, (NEWLINE =? f x)%N = (NEWLINE =? x)%N) ->
  split [NEWLINE] (List.map f s) = List.map (List.map f) (split [NEWLINE] s).
Proof.
  intros Hf.
  assert (forall s, find_sep [NEWLINE] (List.map f s) =
            (fun br => (List.map f (fst br), List.map f (snd br))) <$>
              find_sep [NEWLINE] s) as Hfind.
  { clear s. induction s as [|x s IH]; [done|].
    cbn [find_sep after_prefix List.map]. rewrite Hf.
    destruct (NEWLINE =? x)%N; [done|]. simpl. rewrite IH.
    by destruct (find_sep [NEWLINE] s) as [[??]|]. }
  apply (split_cuts_ind NEWLINE []
           (fun s parts => split [NEWLINE] (List.map f s) = List.map (List.map f) parts)).
  - intros s' E. by rewrite split_step, Hfind, E.
  - intros s' b r E IH. by rewrite split_step, Hfind, E; simpl; rewrite IH.
Qed.

(** What [strip] removes: the white space before the first and after the
    last character that is not white space. *)
Lemma strip_spec (lead core trail : pystr) :
  Forall (fun c => isspace c = true) lead ->
  Forall (fun c => isspace c = true) trail ->
  (forall c, head core = Some c -> isspace c = false) ->
  (forall c, last core = Some c -> isspace c = false) ->
  strip (lead ++ core ++ trail) = core.
Proof.
  intros Hlead Htrail Hhead Hlast. unfold strip, lstrip_by.
  assert (forall l k, Forall (fun x => isspace x = true) l ->
            drop_while isspace (l ++ k) = drop_while isspace k) as Hdrop.
  { intros l k. induction 1 as [|x l Hx _ IH]; simpl; [done|]. by rewrite Hx. }
  rewrite Hdrop by done.
  destruct core as [|c core]; simpl.
  - rewrite <- (app_nil_r trail) at 1. rewrite Hdrop by done. done.
  - rewrite (Hhead c) by done.
    by apply (rstrip_by_spec isspace _ (c :: core) trail).
Qed.

(** C6, as it is stated, fails: TAB (9) and DEL (127) lie outside the 7-bit
    printable range, and [clean_text] keeps them instead of putting a space
    in their place. *)
Lemma clean_text_keeps_control_characters :
  Forall (fun c => printable_7bit c = false) [9%N; 127%N]
  /\ clean_text [9%N; 127%N] = [9%N; 127%N]
  /\ clean_text [9%N; 127%N] <> [SPACE; SPACE].
Proof. split; [by repeat constructor|]. by split. Qed.

(** C6, amended: [clean_text] puts a single space in the place of every
    character whose code point is 128 or more and leaves every character
    below 128 as it is, control characters included; the length is the same,
    the lines of the result are the cleaned lines of the input, and cleaning
    a second time changes nothing. *)
Theorem clean_text_spec (text : pystr) :
  length (clean_text text) = length text
  /\ (forall i c, text !! i = Some c ->
        clean_text text !! i = Some (if (c <? 128)%N then c else SPACE))
  /\ split [NEWLINE] (clean_text text)
     = List.map clean_text (split [NEWLINE] text)
  /\ clean_text (clean_text text) = clean_text text.
Proof.
  unfold clean_text. repeat split.
  - apply length_map.
  - intros i c Hi. revert i Hi.
    induction text as [|x text IH]; intros [|i]; simpl; try done.
    + by intros [= ->].
    + apply IH.
  - apply split_lines_map, clean_char_newline.
  - rewrite map_map. apply map_ext. intros c.
    apply clean_char_fixed, clean_char_ascii.
Qed.

(** ** Entry splitting *)

(** C7, as it is stated, fails: a run of ten equals signs inside a line cuts
    the text although no line of it is a delimiter line, and so does a part
    of a line of eleven. *)
Lemma split_inside_a_line :
  List.filter is_delimiter_line (split [NEWLINE] (py "A==========B")) = []
  /\ entry_blocks (py "A==========B") = [(0, py "A"); (1, py "B")]
  /\ List.filter is_delimiter_line
       (split [NEWLINE] (text_of_lines ["A"; "==========="; "B"]%string)) = []
  /\ entry_blocks (text_of_lines ["A"; "==========="; "B"]%string)
     = [(0, py "A"); (1, text_of_lines ["="; "B"]%string)].
Proof. vm_compute. done. Qed.

Lemma enumerate_from_lookup {A} (l : list A) i0 i x :
  In (i, x) (enumerate_from i0 l) <-> i0 <= i /\ l !! (i - i0) = Some x.
Proof.
  revert i0. induction l as [|y l IH]; intros i0; simpl.
  - split; [done|]. intros [_ H]. by rewrite lookup_nil in H.
  - rewrite IH. split.
    + intros [[= <- <-]|[Hle Hl]].
      * by rewrite Nat.sub_diag.
      * split; [lia|]. by replace (i - i0) with (S (i - S i0)) by lia.
    + intros [Hle Hl]. destruct (decide (i = i0)) as [->|Hne].
      * rewrite Nat.sub_diag in Hl. left. simpl in Hl. congruence.
      * right. split; [lia|].
        by replace (i - i0) with (S (i - S i0)) in Hl by lia.
Qed.

Lemma enumerate_lookup {A} (l : list A) i x :
  In (i, x) (enumerate l) <-> l !! i = Some x.
Proof.
  unfold enumerate. rewrite enumerate_from_lookup, Nat.sub_0_r.
  split; [by intros [_ ?]|]. split; [lia|done].
Qed.

Lemma blocks_sorted_from (pieces : list pystr) i0 :
  let blocks :=
    List.filter (fun ie => nonempty (snd ie))
      (List.map (fun ie => (fst ie, strip (snd ie))) (enumerate_from i0 pieces)) in
  StronglySorted lt (List.map fst blocks)
  /\ Forall (fun i => i0 <= i) (List.map fst blocks).
Proof.
  revert i0. induction pieces as [|p pieces IH]; intros i0; simpl.
  - split; constructor.
  - destruct (IH (S i0)) as [Hs Hb].
    assert (Forall (fun i => i0 < i)
              (List.map fst
                 (List.filter (fun ie => nonempty (snd ie))
                    (List.map (fun ie => (fst ie, strip (snd ie)))
                       (enumerate_from (S i0) pieces))))) as Hlt.
    { eapply Forall_impl; [exact Hb|]. simpl. lia. }
    destruct (nonempty (strip p)); simpl.
    + split; [by constructor|]. constructor; [done|].
      eapply Forall_impl; [exact Hlt|]. simpl. lia.
    + split; [done|]. eapply Forall_impl; [exact Hlt|]. simpl. lia.
Qed.

Lemma nonempty_true s : nonempty s = true <-> s <> [].
Proof. by destruct s. Qed.

(** C7, amended: the text is cut at every occurrence of ten consecutive
    equals signs, found from the left and not overlapping, whether or not the
    occurrence is a line of its own; the blocks are the trimmed pieces that
    are not empty, each with the position of its piece among all the pieces,
    in increasing order; a text without ten consecutive equals signs is not
    cut. *)
Theorem entry_blocks_spec (text : pystr) :
  join DELIM (split DELIM text) = text
  /\ Forall (fun piece => ~ occurs DELIM piece) (split DELIM text)
  /\ (forall k piece x y,
        split DELIM text !! k = Some piece ->
        join DELIM (drop k (split DELIM text)) = x ++ DELIM ++ y ->
        length piece <= length x)
  /\ (~ occurs DELIM text -> split DELIM text = [text])
  /\ (forall i entry,
        In (i, entry) (entry_blocks text) <->
        exists piece,
          split DELIM text !! i = Some piece /\ entry = strip piece /\ entry <> [])
  /\ StronglySorted lt (List.map fst (entry_blocks text)).
Proof.
  split; [apply join_split|].
  split; [by apply split_pieces_free|].
  split; [intros k piece x y Hk; by apply split_leftmost|].
  split; [apply split_no_occurrence|].
  split.
  - intros i entry. unfold entry_blocks.
    rewrite filter_In, in_map_iff. simpl. rewrite nonempty_true. split.
    + intros [([j p] & [= <- <-] & Hin) Hne]. simpl in *.
      apply enumerate_lookup in Hin. by exists p.
    + intros (p & Hp & -> & Hne). split; [|done].
      exists (i, p). split; [done|]. by apply enumerate_lookup.
  - apply (blocks_sorted_from (split DELIM text) 0).
Qed.

(** The index of a block counts the empty pieces before it. *)
Example entry_blocks_index_counts_empty_pieces :
  entry_blocks
    (text_of_lines ["A"; "=========="; "=========="; "B"; "=========="; ""]%string)
  = [(0, py "A"); (2, py "B")].
Proof. vm_compute. reflexivity. Qed.

(** ** The header line *)

Lemma parse_book_info_eq (book_info : pystr) :
  parse_book_info book_info =
  (strip (before_first LPAREN book_info),
   List.map strip
     (split [COMMA] (rstrip_rparen (after_last LPAREN book_info)))).
Proof.
  unfold parse_book_info. by rewrite first_part_split, last_part_split.
Qed.

(** C8: the title is the trimmed text before the first opening parenthesis;
    the authors are the text after the last opening parenthesis, without the
    closing parentheses at its end, split at the commas, each part trimmed.
    Parentheses between the first and the last opening one (a title with
    parentheses) end up in neither. *)
Theorem parse_book_info_two_stage (book_info : pystr) :
  parse_book_info book_info =
    (strip (before_first LPAREN book_info),
     List.map strip
       (split [COMMA] (rstrip_rparen (after_last LPAREN book_info))))
  /\ (forall pre post : pystr,
        book_info = pre ++ LPAREN :: post -> LPAREN ∉ pre ->
        before_first LPAREN book_info = pre)
  /\ (forall pre post : pystr,
        book_info = pre ++ LPAREN :: post -> LPAREN ∉ post ->
        after_last LPAREN book_info = post)
  /\ (forall kept removed : pystr,
        after_last LPAREN book_info = kept ++ removed ->
        Forall (fun c => c = RPAREN) removed ->
        last kept <> Some RPAREN ->
        rstrip_rparen (after_last LPAREN book_info) = kept).
Proof.
  split; [apply parse_book_info_eq|].
  split; [intros pre post -> Hpre; by apply before_first_spec|].
  split; [intros pre post -> Hpost; by apply after_last_spec|].
  intros kept removed Hsplit Hrem Hlast.
  apply (rstrip_by_spec _ _ kept removed); [done| |].
  - eapply Forall_impl; [exact Hrem|]. intros c ->. apply N.eqb_refl.
  - intros x Hx. apply N.eqb_neq. congruence.
Qed.

Example parse_book_info_strips_every_closing_parenthesis :
  parse_book_info (py "Dune (Frank Herbert))")
  = (py "Dune", [py "Frank Herbert"]).
Proof. vm_compute. reflexivity. Qed.

Example parse_book_info_title_with_parentheses :
  parse_book_info (py "Dune (Book 1) (Herbert, Frank)")
  = (py "Dune", [py "Herbert"; py "Frank"]).
Proof. vm_compute. reflexivity. Qed.

(** C10, as it is stated, fails: a header without parentheses but with a
    comma gives two authors, and one that ends in a closing parenthesis gives
    an author that is not the title. *)
Lemma parse_book_info_comma_without_parenthesis :
  (LPAREN ∉ py "Hello, World")
  /\ parse_book_info (py "Hello, World")
     = (py "Hello, World", [py "Hello"; py "World"])
  /\ (LPAREN ∉ py "Notes)")
  /\ parse_book_info (py "Notes)") = (py "Notes)", [py "Notes"]).
Proof.
  split; [decide_by_computation|].
  split; [by vm_compute|].
  split; [decide_by_computation|]. by vm_compute.
Qed.

(** C10, amended: for a header line without an opening parenthesis the title
    is the trimmed line, and the authors are the line without the closing
    parentheses at its end, split at the commas, each part trimmed; when the
    line has no comma either and does not end in a closing parenthesis, that
    is the one-element list of the same trimmed line. *)
Theorem parse_book_info_no_parenthesis (book_info : pystr) :
  LPAREN ∉ book_info ->
  parse_book_info book_info =
    (strip book_info,
     List.map strip (split [COMMA] (rstrip_rparen book_info)))
  /\ (COMMA ∉ book_info -> last book_info <> Some RPAREN ->
      parse_book_info book_info = (strip book_info, [strip book_info])).
Proof.
  intros Hno. rewrite parse_book_info_eq.
  rewrite before_first_absent, after_last_absent by done.
  split; [done|]. intros Hcomma Hlast.
  unfold rstrip_rparen. rewrite rstrip_by_nothing.
  - rewrite split_no_occurrence; [done|]. by rewrite occurs_char.
  - intros x Hx. apply N.eqb_neq. congruence.
Qed.

Lemma parse_book_info_no_parenthesis_witness :
  (LPAREN ∉ py "Dune")
  /\ parse_book_info (py "Dune") = (py "Dune", [py "Dune"]).
Proof.
  assert ((LPAREN ∉ py "Dune")) as Hno by decide_by_computation.
  split; [exact Hno|].
  destruct (parse_book_info_no_parenthesis (py "Dune") Hno) as [_ H].
  apply H; [decide_by_computation|done].
Defined.

Section ParserProperties.
Context `{RT : Runtime}.

(** ** The ledger is not read *)















(** [is_processed], the one method that reads the ledger, is not blind to
    it. *)
Lemma is_processed_reads_ledger entry_id : ~ ledger_blind (is_processed entry_id).
Proof.
  intros H. specialize (H {[entry_id]} None new_parser).
  unfold is_processed in H. simpl in H.
  rewrite bool_decide_eq_true_2 in H by set_solver.
  rewrite bool_decide_eq_false_2 in H by set_solver.
  discriminate.
Qed.


(** ** The batch never raises *)

Lemma parse_block_returns ie st : fst (parse_block ie st) = inr tt.
Proof.
  unfold parse_block. destruct (nonempty _); [|done].
  unfold try_except. by destruct (parse_entry _ _ st) as [[e|[]] st'].
Qed.

Lemma for_each_parse_block_returns l st :
  fst (for_each parse_block l st) = inr tt.
Proof.
  revert st. induction l as [|ie l IH]; intros st; [done|].
  simpl. unfold bind. pose proof (parse_block_returns ie st) as H.
  destruct (parse_block ie st) as [[e|[]] st']; [done|]. apply IH.
Qed.

Lemma for_each_parse_block_cons ie l st :
  for_each parse_block (ie :: l) st
  = for_each parse_block l (snd (parse_block ie st)).
Proof.
  simpl. unfold bind. pose proof (parse_block_returns ie st) as H.
  by destruct (parse_block ie st) as [[e|[]] st'].
Qed.

(** The loop of [parse_clippings] runs [parse_entry] on the blocks that
    [entry_blocks] lists, in that order, and on nothing else. *)
Lemma for_each_parse_block_blocks (pieces : list pystr) i0 st :
  for_each parse_block (enumerate_from i0 pieces) st
  = for_each parse_entry_logged
      (List.filter (fun ie => nonempty (snd ie))
         (List.map (fun ie => (fst ie, strip (snd ie)))
            (enumerate_from i0 pieces))) st.
Proof.
  revert i0 st. induction pieces as [|p pieces IH]; intros i0 st; [done|].
  cbn [enumerate_from List.map List.filter for_each fst snd].
  unfold bind, parse_block at 1. cbn [fst snd].
  destruct (nonempty (strip p)).
  - cbn [for_each]. unfold bind, parse_entry_logged at 1. cbn [fst snd].
    destruct (try_except _ _ st) as [[e|[]] st']; [done|]. apply IH.
  - apply IH.
Qed.

Lemma parse_clippings_entry_blocks content st :
  parse_clippings content st
  = for_each parse_entry_logged (entry_blocks (clean_text content)) st.
Proof. apply for_each_parse_block_blocks. Qed.

(** C4: a block of fewer than two lines adds one Error, with the index of
    the block and the message [Invalid entry format at line <index>]; the
    loop goes on with the next block, and the books are as they were. *)
Theorem short_block_recorded_as_error
    (i : nat) (raw : pystr) (rest : list (nat * pystr)) (st : KindleParser) :
  strip raw <> [] ->
  length (split [NEWLINE] (strip raw)) < 2 ->
  parse_block (i, raw) st
    = (inr tt,
       set_errors
         (errors st ++
            [{| line_number := i;
                error_message :=
                  py "Invalid entry format at line " ++ str_of_nat i |}]) st)
  /\ books (snd (parse_block (i, raw) st)) = books st
  /\ for_each parse_block ((i, raw) :: rest) st
     = for_each parse_block rest
         (set_errors
            (errors st ++
               [{| line_number := i;
                   error_message :=
                     py "Invalid entry format at line " ++ str_of_nat i |}]) st).
Proof.
  intros Hne Hshort.
  assert (parse_block (i, raw) st
    = (inr tt,
       set_errors
         (errors st ++
            [{| line_number := i;
                error_message :=
                  py "Invalid entry format at line " ++ str_of_nat i |}]) st))
    as Hblock.
  { unfold parse_block. cbn [fst snd].
    apply nonempty_true in Hne. rewrite Hne.
    unfold try_except, parse_entry.
    apply Nat.ltb_lt in Hshort. by rewrite Hshort. }
  split; [exact Hblock|]. split; [by rewrite Hblock|].
  by rewrite for_each_parse_block_cons, Hblock.
Qed.

(** ** Authors *)

Lemma authors_kept_refl st : authors_kept st st.
Proof. intros t b Hb. by exists b. Qed.

Lemma authors_kept_trans st1 st2 st3 :
  authors_kept st1 st2 -> authors_kept st2 st3 -> authors_kept st1 st3.
Proof.
  intros H12 H23 t b Hb. destruct (H12 t b Hb) as (b2 & Hb2 & E2).
  destruct (H23 t b2 Hb2) as (b3 & Hb3 & E3). exists b3. split; congruence.
Qed.

Lemma authors_kept_set_errors es st : authors_kept st (set_errors es st).
Proof. intros t b Hb. by exists b. Qed.

(** [get_or_create_book] followed by a mutation of the book it returned that
    leaves [authors] alone. *)
Lemma authors_kept_update title authors0 (f : Book -> Book) st :
  (forall b, authors (f b) = authors b) ->
  authors_kept st
    (snd (bind (get_or_create_book title authors0)
            (fun book => store_book title (f book)) st)).
Proof.
  intros Hf t b Hb. unfold bind, get_or_create_book, store_book, modify.
  destruct (books st !! title) as [book|] eqn:E; simpl.
  - destruct (decide (title = t)) as [->|Hne].
    + exists (f book). rewrite lookup_insert_eq. split; [done|].
      rewrite Hf. congruence.
    + exists b. by rewrite lookup_insert_ne.
  - assert (title <> t) as Hne by congruence.
    exists b. by rewrite !lookup_insert_ne.
Qed.

Lemma authors_kept_get_or_create title authors0 st :
  authors_kept st (snd (get_or_create_book title authors0 st)).
Proof.
  intros t b Hb. unfold get_or_create_book.
  destruct (books st !! title) as [book|] eqn:E; simpl; [by exists b|].
  assert (title <> t) as Hne by congruence.
  exists b. by rewrite lookup_insert_ne.
Qed.

Lemma authors_kept_add_highlight title authors0 content location date_added page st :
  authors_kept st
    (snd (add_highlight title authors0 content location date_added page st)).
Proof.
  apply (authors_kept_update title authors0
           (fun book => set_highlights (highlights book ++ [_]) book)).
  done.
Qed.

Lemma authors_kept_add_bookmark title authors0 location date_added page st :
  authors_kept st
    (snd (add_bookmark title authors0 location date_added page st)).
Proof.
  apply (authors_kept_update title authors0
           (fun book => set_bookmarks (bookmarks book ++ [_]) book)).
  done.
Qed.

Lemma authors_kept_add_note title authors0 content date_added location page st :
  authors_kept st
    (snd (add_note title authors0 content date_added location page st)).
Proof.
  pose (note := {| note_content := content; note_date_added := date_added;
                   note_page := page; note_location := location |}).
  pose proof (authors_kept_update title authors0
    (fun book =>
       match next_match note (rev (highlights book)) with
       | inr (Some k) =>
           set_highlights
             (alter (set_note note) (length (highlights book) - 1 - k)
                (highlights book)) book
       | inr None => set_notes (notes book ++ [note]) book
       | inl _ => book
       end) st) as Hupd.
  pose proof (authors_kept_get_or_create title authors0 st) as Hget.
  unfold add_note, bind in *.
  destruct (get_or_create_book title authors0 st) as [[e|book] st'];
    [done|]. fold note. simpl in Hupd.
  destruct (next_match note (rev (highlights book))) as [e|[k|]].
  - exact Hget.
  - apply Hupd. intros b. by destruct (next_match _ _) as [?|[?|]].
  - apply Hupd. intros b. by destruct (next_match _ _) as [?|[?|]].
Qed.

Lemma authors_kept_parse_entry entry i st :
  authors_kept st (snd (parse_entry entry i st)).
Proof.
  unfold parse_entry.
  destruct (length (split [NEWLINE] entry) <? 2); [apply authors_kept_refl|].
  destruct (parse_book_info _) as [book_title authors0].
  destruct (parse_metadata _) as [e|[[[entry_type page] location] date_added]];
    [apply authors_kept_refl|].
  repeat case_bool_decide;
    auto using authors_kept_add_highlight, authors_kept_add_note,
      authors_kept_add_bookmark, authors_kept_refl.
Qed.

Lemma authors_kept_parse_block ie st :
  authors_kept st (snd (parse_block ie st)).
Proof.
  unfold parse_block. destruct (nonempty _); [|apply authors_kept_refl].
  unfold try_except.
  pose proof (authors_kept_parse_entry (strip (snd ie)) (fst ie) st) as H.
  destruct (parse_entry _ _ st) as [[e|[]] st']; simpl in *; [|done].
  eapply authors_kept_trans; [exact H|]. apply authors_kept_set_errors.
Qed.

Lemma authors_kept_for_each blocks st :
  authors_kept st (snd (for_each parse_block blocks st)).
Proof.
  revert st. induction blocks as [|ie blocks IH]; intros st;
    [apply authors_kept_refl|].
  rewrite for_each_parse_block_cons.
  eapply authors_kept_trans; [apply authors_kept_parse_block|apply IH].
Qed.

(** C9: the authors of a book are the list given when the book is created;
    once a book exists under a title, [get_or_create_book] returns it as it
    is whatever authors it is called with, and no entry that is processed
    later (a highlight, a note or a bookmark added directly, or any sequence
    of blocks of a clippings text) changes its authors. *)
Theorem authors_fixed_at_creation
    (t : pystr) (b : Book) (st : KindleParser) :
  books st !! t = Some b ->
  (forall other_authors,
      get_or_create_book t other_authors st = (inr b, st))
  /\ (forall other_authors content location date_added page,
        exists b',
          books (snd (add_highlight t other_authors content location
                        date_added page st)) !! t = Some b'
          /\ authors b' = authors b)
  /\ (forall other_authors content date_added location page,
        exists b',
          books (snd (add_note t other_authors content date_added
                        location page st)) !! t = Some b'
          /\ authors b' = authors b)
  /\ (forall other_authors location date_added page,
        exists b',
          books (snd (add_bookmark t other_authors location date_added
                        page st)) !! t = Some b'
          /\ authors b' = authors b)
  /\ (forall blocks,
        exists b',
          books (snd (for_each parse_block blocks st)) !! t = Some b'
          /\ authors b' = authors b)
  /\ (forall content,
        exists b',
          books (snd (parse_clippings content st)) !! t = Some b'
          /\ authors b' = authors b).
Proof.
  intros Hb. repeat split.
  - intros other. unfold get_or_create_book. by rewrite Hb.
  - intros. by apply authors_kept_add_highlight.
  - intros. by apply authors_kept_add_note.
  - intros. by apply authors_kept_add_bookmark.
  - intros. by apply authors_kept_for_each.
  - intros. by apply authors_kept_for_each.
Qed.

(** A book is created with the authors of the entry that creates it. *)
Lemma get_or_create_book_new t new_authors st :
  books st !! t = None ->
  exists st',
    get_or_create_book t new_authors st
      = (inr {| title := t; authors := new_authors; highlights := [];
                notes := []; bookmarks := [] |}, st')
    /\ books st' !! t
       = Some {| title := t; authors := new_authors; highlights := [];
                 notes := []; bookmarks := [] |}.
Proof.
  intros Hnone. unfold get_or_create_book. rewrite Hnone.
  eexists. split; [done|]. simpl. by rewrite lookup_insert_eq.
Qed.
(** ** The metadata line *)


Lemma re_search_Some {A} (match_at : pystr -> option A) s r :
  re_search match_at s = Some r ->
  exists pre suf, s = pre ++ suf /\ match_at suf = Some r
    /\ forall pre' suf', s = pre' ++ suf' -> length pre' < length pre ->
         match_at suf' = None.
Proof.
  induction s as [|c s IH]; simpl.
  - destruct (match_at []) eqn:E; [|done]. intros [= ->].
    exists [], []. repeat split; [done|]. simpl. lia.
  - destruct (match_at (c :: s)) eqn:E.
    + intros [= ->]. exists [], (c :: s). repeat split; [done|]. simpl. lia.
    + intros (pre & suf & -> & Hm & Hleft)%IH.
      exists (c :: pre), suf. repeat split; [done|].
      intros [|c' pre'] suf' Heq Hlen; simpl in *.
      * by subst suf'.
      * injection Heq as <- Heq. apply (Hleft pre'); [done|lia].
Qed.


Lemma take_while_head p (c : N) rest :
  p c = true -> take_while p (c :: rest) <> [].
Proof. simpl. by intros ->. Qed.


Lemma take_while_Forall p s : Forall (fun c => p c = true) (take_while p s).
Proof.
  induction s as [|c s IH]; simpl; [constructor|].
  destruct (p c) eqn:E; by constructor.
Qed.

Lemma drop_while_head p s c rest :
  drop_while p s = c :: rest -> p c = false.
Proof.
  induction s as [|x s IH]; simpl; [done|].
  destruct (p x) eqn:E; [done|]. by intros [= <- _].
Qed.








(** ** Notes and highlights *)

Lemma same_start_other note loc h :
  note_location note = Some loc -> other_start loc h ->
  same_start h note = inr false.
Proof.
  intros Hn (hloc & Hh & Hne). unfold same_start. rewrite Hh, Hn.
  f_equal. by apply Z.eqb_neq.
Qed.

Lemma next_match_skip note loc hs rest :
  note_location note = Some loc ->
  Forall (other_start loc) hs ->
  next_match note (hs ++ rest) =
  match next_match note rest with
  | inl e => inl e
  | inr None => inr None
  | inr (Some k) => inr (Some (length hs + k))
  end.
Proof.
  intros Hn. induction 1 as [|h hs Hh _ IH]; simpl.
  - by destruct (next_match note rest) as [?|[?|]].
  - rewrite (same_start_other note loc h) by done. rewrite IH.
    by destruct (next_match note rest) as [?|[?|]].
Qed.

Lemma Forall_rev_other loc (hs : list Highlight) :
  Forall (other_start loc) hs -> Forall (other_start loc) (rev hs).
Proof.
  rewrite !Forall_forall. intros H h Hin. apply H.
  apply list_elem_of_In, in_rev. by apply list_elem_of_In.
Qed.

(** X20: the note goes to the most recent highlight with its start, when the
    note and every highlight added after that one have a location; a note
    attached earlier is replaced, and [notes] stays as it is. *)
Lemma add_note_attaches title authors0 content date_added loc page st
    book older h hloc newer :
  books st !! title = Some book ->
  highlights book = older ++ h :: newer ->
  hl_location h = Some hloc -> start hloc = start loc ->
  Forall (other_start loc) newer ->
  add_note title authors0 content date_added (Some loc) page st =
  (inr tt,
   set_books
     (<[title :=
          set_highlights
            (older ++
               set_note {| note_content := content;
                           note_date_added := date_added;
                           note_page := page;
                           note_location := Some loc |} h :: newer) book]>
        (books st)) st).
Proof.
  intros Hbook Hhs Hh Hstart Hnewer.
  unfold add_note, bind, get_or_create_book. rewrite Hbook. cbv beta zeta.
  rewrite Hhs, rev_app_distr. simpl. rewrite <- app_assoc. simpl.
  erewrite next_match_skip; [|done|by apply Forall_rev_other].
  simpl. unfold same_start. rewrite Hh. simpl.
  rewrite (proj2 (Z.eqb_eq _ _) Hstart).
  unfold store_book, modify. do 4 f_equal.
  rewrite length_app, length_rev. simpl.
  replace (length older + S (length newer) - 1 - (length newer + 0))
    with (length older + 0) by lia.
  by rewrite alter_app_r.
Qed.

(** X21: the note is appended to [notes] when it has a location and every
    highlight of the book has a location with another start; the highlights
    stay as they are. *)
Lemma add_note_unmatched title authors0 content date_added loc page st book :
  books st !! title = Some book ->
  Forall (other_start loc) (highlights book) ->
  add_note title authors0 content date_added (Some loc) page st =
  (inr tt,
   set_books
     (<[title :=
          set_notes
            (notes book ++
               [{| note_content := content; note_date_added := date_added;
                   note_page := page; note_location := Some loc |}]) book]>
        (books st)) st).
Proof.
  intros Hbook Hall.
  unfold add_note, bind, get_or_create_book. rewrite Hbook. cbv beta zeta.
  rewrite <- (app_nil_r (rev (highlights book))).
  erewrite next_match_skip; [|done|by apply Forall_rev_other].
  done.
Qed.

(** X22: with no highlight in the book, nothing is compared and the note is
    appended, whatever its location. *)
Lemma add_note_no_highlights title authors0 content date_added location page
    st book :
  books st !! title = Some book ->
  highlights book = [] ->
  add_note title authors0 content date_added location page st =
  (inr tt,
   set_books
     (<[title :=
          set_notes
            (notes book ++
               [{| note_content := content; note_date_added := date_added;
                   note_page := page; note_location := location |}]) book]>
        (books st)) st).
Proof.
  intros Hbook Hhs.
  unfold add_note, bind, get_or_create_book. rewrite Hbook. cbv beta zeta.
  by rewrite Hhs.
Qed.

(** X23: a note without a location, in a book that has a highlight: the first
    comparison raises, and the note is stored nowhere. *)
Lemma add_note_without_location title authors0 content date_added page st
    book :
  books st !! title = Some book ->
  highlights book <> [] ->
  add_note title authors0 content date_added None page st
  = (inl (AttributeError NO_START), st).
Proof.
  intros Hbook Hhs.
  unfold add_note, bind, get_or_create_book. rewrite Hbook. cbv beta zeta.
  destruct (highlights book) as [|h hs _] using rev_ind; [done|].
  rewrite rev_app_distr. simpl. unfold same_start. simpl.
  by destruct (hl_location h).
Qed.

(** X24: a highlight without a location, added after every highlight with the
    start of the note: the comparison with it raises before the search gets
    to a match, and the note is stored nowhere. *)
Lemma add_note_past_locationless_highlight title authors0 content date_added
    loc page st book older h newer :
  books st !! title = Some book ->
  highlights book = older ++ h :: newer ->
  hl_location h = None ->
  Forall (other_start loc) newer ->
  add_note title authors0 content date_added (Some loc) page st
  = (inl (AttributeError NO_START), st).
Proof.
  intros Hbook Hhs Hh Hnewer.
  unfold add_note, bind, get_or_create_book. rewrite Hbook. cbv beta zeta.
  rewrite Hhs, rev_app_distr. simpl. rewrite <- app_assoc. simpl.
  erewrite next_match_skip; [|done|by apply Forall_rev_other].
  simpl. unfold same_start. by rewrite Hh.
Qed.

(** The same two cases on [add_note] itself, for any timestamps: the parser
    is built by [add_highlight] from an empty one. *)
Example add_note_without_location_after_highlight (d1 d2 : datetime) :
  add_note (py "Dune") [py "Frank Herbert"] (py "Interesting symbolism.")
    d2 None (Some 12%Z)
    (snd (add_highlight (py "Dune") [py "Frank Herbert"]
            (py "A spice melange quote.")
            (Some {| start := 200; end_ := Some 210%Z |}) d1 (Some 12%Z)
            new_parser))
  = (inl (AttributeError NO_START),
     snd (add_highlight (py "Dune") [py "Frank Herbert"]
            (py "A spice melange quote.")
            (Some {| start := 200; end_ := Some 210%Z |}) d1 (Some 12%Z)
            new_parser)).
Proof. vm_compute. reflexivity. Qed.

Example add_note_after_locationless_highlight (d1 d2 d3 : datetime) :
  add_note (py "Dune") [py "Frank Herbert"] (py "Interesting symbolism.")
    d3 (Some {| start := 200; end_ := None |}) (Some 12%Z)
    (snd (add_highlight (py "Dune") [py "Frank Herbert"]
            (py "Fear is the mind-killer.") None d2 (Some 13%Z)
            (snd (add_highlight (py "Dune") [py "Frank Herbert"]
                    (py "A spice melange quote.")
                    (Some {| start := 200; end_ := Some 210%Z |}) d1
                    (Some 12%Z) new_parser))))
  = (inl (AttributeError NO_START),
     snd (add_highlight (py "Dune") [py "Frank Herbert"]
            (py "Fear is the mind-killer.") None d2 (Some 13%Z)
            (snd (add_highlight (py "Dune") [py "Frank Herbert"]
                    (py "A spice melange quote.")
                    (Some {| start := 200; end_ := Some 210%Z |}) d1
                    (Some 12%Z) new_parser)))).
Proof. vm_compute. reflexivity. Qed.

End ParserProperties.

(** ** Instances on concrete input *)

Lemma short_block_recorded_as_error_witness :
  strip (py " only a title ") <> []
  /\ length (split [NEWLINE] (strip (py " only a title "))) < 2
  /\ errors (snd (parse_block (RT:=sample_runtime) (3, py " only a title ")
                    new_parser))
     = [{| line_number := 3;
           error_message := py "Invalid entry format at line 3" |}].
Proof.
  assert (strip (py " only a title ") <> []) as Hne by by vm_compute.
  assert (length (split [NEWLINE] (strip (py " only a title "))) < 2) as Hshort
    by (vm_compute; lia).
  split; [exact Hne|]. split; [exact Hshort|].
  destruct (short_block_recorded_as_error (RT:=sample_runtime)
              3 (py " only a title ") [] new_parser Hne Hshort) as [-> _].
  reflexivity.
Defined.

Example header_of_dune :
  parse_book_info (py "Dune (Frank Herbert)") = (py "Dune", [py "Frank Herbert"]).
Proof. vm_compute. reflexivity. Qed.



Lemma authors_fixed_at_creation_witness :
  books dune_parser !! py "Dune" = Some dune_book
  /\ exists b',
       books (snd (parse_clippings (RT:=sample_runtime)
                     dune_other_author_clippings dune_parser)) !! py "Dune"
       = Some b'
       /\ authors b' = [py "Frank Herbert"].
Proof.
  assert (books dune_parser !! py "Dune" = Some dune_book) as Hbook
    by (vm_compute; reflexivity).
  split; [exact Hbook|].
  destruct (authors_fixed_at_creation (RT:=sample_runtime)
              (py "Dune") dune_book dune_parser Hbook)
    as (_ & _ & _ & _ & _ & Hparse).
  exact (Hparse dune_other_author_clippings).
Defined.

(** The bookmark of the second run is there, under the authors of the
    first. *)
Example authors_of_later_entry_discarded :
  (fun book : Book (RT:=sample_runtime) => (authors book, length (bookmarks book))) <$>
    books (snd (parse_clippings (RT:=sample_runtime)
                  dune_other_author_clippings dune_parser)) !! py "Dune"
  = Some ([py "Frank Herbert"], 1).
Proof. vm_compute. reflexivity. Qed.

(** The end-to-end example of the specification: one book, one highlight
    that carries the note, no free note, no error. *)
Example dune_end_to_end :
  (fun book : Book (RT:=sample_runtime) =>
     (title book, List.map hl_content (highlights book),
      List.map (fun h => note_content <$> hl_note h) (highlights book),
      notes book)) <$> books dune_parser !! py "Dune"
  = Some (py "Dune", [py "A spice melange quote."],
          [Some (py "Interesting symbolism.")], [])
  /\ errors dune_parser = [].
Proof. vm_compute. done. Qed.

(** Blocks whose fingerprints are in the ledger are parsed and merged
    again. *)
Example duplicates_merged_again :
  (fun book : Book (RT:=sample_runtime) => length (highlights book)) <$>
    books (snd (parse_clippings (RT:=sample_runtime) dune_clippings
                  (set_ledger
                     (list_to_set
                        (List.map (fun ie => generate_entry_id (RT:=sample_runtime) (snd ie))
                           (entry_blocks (clean_text dune_clippings))))
                     None dune_parser))) !! py "Dune"
  = Some 2.
Proof. vm_compute. reflexivity. Qed.

(** The two blocks of [A==========B] as [parse_clippings] sees them: each is
    a single line and gives an error of its own. *)
Example run_inside_a_line_gives_two_blocks :
  errors (snd (parse_clippings (RT:=sample_runtime) (py "A==========B")
                 new_parser))
  = [{| line_number := 0; error_message := py "Invalid entry format at line 0" |};
     {| line_number := 1; error_message := py "Invalid entry format at line 1" |}].
Proof. vm_compute. reflexivity. Qed.

(** C2 at a failing input: a note without a location, for a book that has a
    highlight.  The claim has the note appended to [notes]; the comparison
    raises [AttributeError], the block is recorded as an error and the note
    is stored nowhere. *)
Theorem note_without_location_is_lost :
  (fun book : Book (RT:=sample_runtime) =>
     (List.map (fun h => note_content <$> hl_note h) (highlights book),
      notes book)) <$>
    books (snd (parse_clippings (RT:=sample_runtime)
                  note_without_location_clippings new_parser)) !! py "Dune"
  = Some ([None], [])
  /\ errors (snd (parse_clippings (RT:=sample_runtime)
                    note_without_location_clippings new_parser))
     = [{| line_number := 1;
           error_message := py "'NoneType' object has no attribute 'start'" |}].
Proof. vm_compute. done. Qed.

(** C1 at a failing input: a highlight at location 200, then a highlight
    without a location, then a note at location 200.  The claim has the note
    attached to the first highlight; the comparison with the highlight
    without a location raises [AttributeError] before the search gets there,
    the block is recorded as an error and the note is stored nowhere. *)
Theorem note_behind_locationless_highlight_is_lost :
  (fun book : Book (RT:=sample_runtime) =>
     (List.map (fun h => start <$> hl_location h) (highlights book),
      List.map (fun h => note_content <$> hl_note h) (highlights book),
      notes book)) <$>
    books (snd (parse_clippings (RT:=sample_runtime)
                  locationless_highlight_clippings new_parser)) !! py "Dune"
  = Some ([Some 200%Z; None], [None; None], [])
  /\ errors (snd (parse_clippings (RT:=sample_runtime)
                    locationless_highlight_clippings new_parser))
     = [{| line_number := 2;
           error_message := py "'NoneType' object has no attribute 'start'" |}].
Proof. vm_compute. done. Qed.

(** * Further properties of the code *)

(** Write the string literals of the goal out as code points. *)
Ltac eval_py :=
  repeat match goal with
         | |- context [py ?s] =>
             let v := eval vm_compute in (py s) in change (py s) with v
         end.

(** ** Normalizing and splitting *)

Lemma clean_text_fixed_iff text :
  clean_text text = text <-> Forall (fun c => (c < 128)%N) text.
Proof.
  induction text as [|c text IH]; simpl.
  - split; [constructor|done].
  - split.
    + intros [= Hc Ht]. constructor; [|by apply IH].
      unfold clean_char, is_ascii in Hc.
      destruct (N.ltb_spec c 128); [done|]. unfold SPACE in Hc. lia.
    + intros [Hc Ht]%Forall_cons. f_equal; [|by apply IH].
      apply clean_char_fixed. by apply N.ltb_lt.
Qed.

(** X1: the text [clean_text] returns has no character from 128 up, and
    [clean_text] changes a text exactly when the text has such a
    character. *)
Theorem clean_text_ascii (text : pystr) :
  Forall (fun c => (c < 128)%N) (clean_text text)
  /\ (clean_text text = text <-> Forall (fun c => (c < 128)%N) text).
Proof.
  split; [|apply clean_text_fixed_iff].
  apply Forall_forall. intros c Hc. unfold clean_text in Hc.
  apply list_elem_of_In, in_map_iff in Hc as (x & <- & _).
  apply N.ltb_lt, clean_char_ascii.
Qed.

Lemma after_prefix_map (f : N -> N) sep s :
  Forall (fun a => forall x, (a =? f x)%N = (a =? x)%N) sep ->
  after_prefix sep (List.map f s) = List.map f <$> after_prefix sep s.
Proof.
  intros Hsep. revert s. induction Hsep as [|a sep Ha _ IH]; intros [|x s];
    simpl; try done.
  rewrite Ha. destruct (a =? x)%N; [apply IH|done].
Qed.

Lemma find_sep_unfold sep s :
  find_sep sep s =
  match after_prefix sep s with
  | Some rest => Some ([], rest)
  | None =>
      match s with
      | [] => None
      | c :: s' =>
          match find_sep sep s' with
          | Some (before, rest) => Some (c :: before, rest)
          | None => None
          end
      end
  end.
Proof. by destruct s. Qed.

Lemma find_sep_map (f : N -> N) sep s :
  Forall (fun a => forall x, (a =? f x)%N = (a =? x)%N) sep ->
  find_sep sep (List.map f s)
  = (fun br => (List.map f (fst br), List.map f (snd br))) <$> find_sep sep s.
Proof.
  intros Hsep. induction s as [|x s IH];
    rewrite (find_sep_unfold sep (List.map f _)), after_prefix_map by done;
    rewrite (find_sep_unfold sep (_ : pystr));
    destruct (after_prefix sep _); try done.
  simpl. rewrite IH. by destruct (find_sep sep s) as [[??]|].
Qed.

Lemma split_map (f : N -> N) sep s :
  Forall (fun a => forall x, (a =? f x)%N = (a =? x)%N) sep ->
  split sep (List.map f s) = List.map (List.map f) (split sep s).
Proof.
  intros Hsep. destruct sep as [|a sep']; [by simp split|].
  apply (split_cuts_ind a sep'
           (fun s parts =>
              split (a :: sep') (List.map f s) = List.map (List.map f) parts)).
  - intros s' E. by rewrite split_step, find_sep_map, E.
  - intros s' b r E IH. by rewrite split_step, find_sep_map, E; simpl; rewrite ?IH.
Qed.

Lemma clean_char_equals c : (61 =? clean_char c)%N = (61 =? c)%N.
Proof.
  unfold clean_char, is_ascii. destruct (N.ltb_spec c 128); [done|].
  symmetry. apply N.eqb_neq. unfold SPACE. lia.
Qed.

Lemma occurs_find_sep sep s : occurs sep s <-> find_sep sep s <> None.
Proof.
  rewrite find_sep_None. split; [by intros ? ?|].
  intros Hnn. destruct (find_sep sep s) as [[b r]|] eqn:E.
  - exists b, r. by apply find_sep_Some.
  - exfalso. apply Hnn. by apply find_sep_None.
Qed.

(** X2: normalizing neither makes nor breaks a delimiter: the pieces of the
    normalized text are the normalized pieces of the text, and the delimiter
    occurs in the one exactly when it occurs in the other. *)
Theorem clean_text_keeps_delimiters (text : pystr) :
  split DELIM (clean_text text) = List.map clean_text (split DELIM text)
  /\ (occurs DELIM (clean_text text) <-> occurs DELIM text).
Proof.
  assert (Forall (fun a => forall x, (a =? clean_char x)%N = (a =? x)%N) DELIM)
    as Hsep by (repeat constructor; apply clean_char_equals).
  split; [by apply split_map|].
  rewrite !occurs_find_sep. unfold clean_text. rewrite find_sep_map by done.
  by destruct (find_sep DELIM text).
Qed.

(** ** Trimming *)

Lemma rstrip_by_decomp p (s : pystr) :
  s = rstrip_by p s ++ rev (take_while p (rev s)).
Proof.
  unfold rstrip_by. rewrite <- rev_app_distr, take_drop_while.
  by rewrite rev_involutive.
Qed.

Lemma last_rev_head (l : pystr) : last (rev l) = head l.
Proof. destruct l as [|x l]; [done|]. simpl. by rewrite last_snoc. Qed.

Lemma rstrip_by_last p s c : last (rstrip_by p s) = Some c -> p c = false.
Proof.
  unfold rstrip_by. rewrite last_rev_head.
  destruct (drop_while p (rev s)) as [|x rest] eqn:E; [done|].
  intros [= <-]. by apply drop_while_head in E.
Qed.

Lemma strip_decomp s :
  exists lead trail,
    s = lead ++ strip s ++ trail
    /\ Forall (fun c => isspace c = true) lead
    /\ Forall (fun c => isspace c = true) trail.
Proof.
  exists (take_while isspace s),
         (rev (take_while isspace (rev (drop_while isspace s)))).
  split; [|split].
  - unfold strip, lstrip_by. rewrite <- rstrip_by_decomp.
    by rewrite take_drop_while.
  - apply take_while_Forall.
  - apply Forall_forall. intros c Hc. rewrite elem_rev in Hc.
    pose proof (take_while_Forall isspace (rev (drop_while isspace s))) as H.
    rewrite Forall_forall in H. by apply H.
Qed.

Lemma strip_ends s :
  (forall c, head (strip s) = Some c -> isspace c = false)
  /\ (forall c, last (strip s) = Some c -> isspace c = false).
Proof.
  split; [|intros c; apply rstrip_by_last].
  intros c Hc. unfold strip, lstrip_by in Hc.
  pose proof (rstrip_by_decomp isspace (drop_while isspace s)) as Hd.
  destruct (rstrip_by isspace (drop_while isspace s)) as [|x r]; [done|].
  injection Hc as ->. simpl in Hd. by apply drop_while_head in Hd.
Qed.

Lemma strip_idem s : strip (strip s) = strip s.
Proof.
  destruct (strip_ends s) as [Hh Hl].
  rewrite <- (app_nil_r (strip s)) at 1.
  by apply (strip_spec [] (strip s) []).
Qed.

Lemma strip_subset (c : N) s : c ∈ strip s -> c ∈ s.
Proof.
  destruct (strip_decomp s) as (lead & trail & Hs & _).
  intros Hc. rewrite Hs. set_solver.
Qed.

Lemma strip_fixed_ends x :
  strip x = x ->
  (forall c, head x = Some c -> isspace c = false)
  /\ (forall c, last x = Some c -> isspace c = false).
Proof. intros <-. apply strip_ends. Qed.

Lemma strip_after_space a : strip a = a -> strip (SPACE :: a) = a.
Proof.
  intros [Hh Hl]%strip_fixed_ends.
  rewrite <- (app_nil_r a) at 1.
  by apply (strip_spec [SPACE] a []); [repeat constructor|constructor|..].
Qed.

Lemma strip_before_space a : strip a = a -> strip (a ++ [SPACE]) = a.
Proof.
  intros [Hh Hl]%strip_fixed_ends.
  by apply (strip_spec [] a [SPACE]); [constructor|repeat constructor|..].
Qed.

Lemma rstrip_by_subset p (c : N) s : c ∈ rstrip_by p s -> c ∈ s.
Proof. intros Hc. rewrite (rstrip_by_decomp p s). set_solver. Qed.

(** ** Joining and cutting at one character *)

Lemma split_char_cons c (pre post : pystr) :
  c ∉ pre -> split [c] (pre ++ c :: post) = pre :: split [c] post.
Proof.
  intros Hc. rewrite split_step.
  assert (find_sep [c] (pre ++ c :: post) = Some (pre, post)) as ->; [|done].
  induction pre as [|x pre IH]; cbn [find_sep after_prefix app].
  - by rewrite N.eqb_refl.
  - assert (c <> x) as Hne by set_solver.
    apply N.eqb_neq in Hne. rewrite Hne, IH; [done|set_solver].
Qed.

Lemma elem_join_inv (c : N) sep parts :
  c ∈ join sep parts -> c ∈ sep \/ exists p, p ∈ parts /\ c ∈ p.
Proof.
  induction parts as [|p [|q parts] IH]; cbn [join].
  - by intros ?%elem_of_nil.
  - intros Hc. right. exists p. set_solver.
  - rewrite !elem_of_app. intros [Hc|[Hc|Hc]].
    + right. exists p. set_solver.
    + by left.
    + destruct (IH Hc) as [?|(p' & Hp' & Hcp)]; [by left|].
      right. exists p'. set_solver.
Qed.

Lemma elem_join (c : N) sep (p : pystr) parts :
  p ∈ parts -> c ∈ p -> c ∈ join sep parts.
Proof.
  intros Hp Hc. induction parts as [|q [|r parts] IH]; cbn [join].
  - by apply elem_of_nil in Hp.
  - apply list_elem_of_singleton in Hp. by subst.
  - apply elem_of_cons in Hp as [->|Hp]; [set_solver|].
    rewrite !elem_of_app. right. right. by apply IH.
Qed.

Lemma split_piece_subset (c : N) sep s (piece : pystr) :
  piece ∈ split sep s -> c ∈ piece -> c ∈ s.
Proof.
  intros Hp Hc. rewrite <- (join_split sep s). by eapply elem_join.
Qed.

Lemma split_join_comma rest : forall a pre : pystr,
  Forall (fun x : pystr => COMMA ∉ x) (a :: rest) -> COMMA ∉ pre ->
  split [COMMA] (pre ++ join (py ", ") (a :: rest))
  = (pre ++ a) :: List.map (cons SPACE) rest.
Proof.
  change (py ", ") with [COMMA; SPACE].
  induction rest as [|b rest IH]; intros a pre Hall Hpre.
  - simpl. apply split_no_occurrence. rewrite occurs_char.
    apply Forall_cons in Hall as [Ha _]. set_solver.
  - apply Forall_cons in Hall as [Ha Hall].
    change (join [COMMA; SPACE] (a :: b :: rest))
      with (a ++ [COMMA; SPACE] ++ join [COMMA; SPACE] (b :: rest)).
    replace (pre ++ a ++ [COMMA; SPACE] ++ join [COMMA; SPACE] (b :: rest))
      with ((pre ++ a) ++ COMMA :: ([SPACE] ++ join [COMMA; SPACE] (b :: rest)))
      by (by rewrite <- !app_assoc).
    rewrite split_char_cons by set_solver.
    rewrite IH; [done|done|]. unfold COMMA, SPACE. set_solver.
Qed.

(** ** The header line, again *)

Lemma format_header_parsed (title : pystr) (authors : list pystr) :
  strip title = title ->
  LPAREN ∉ title ->
  authors <> [] ->
  Forall (fun a : pystr =>
            strip a = a /\ (LPAREN ∉ a) /\ (RPAREN ∉ a) /\ (COMMA ∉ a)) authors ->
  parse_book_info (format_header title authors) = (title, authors).
Proof.
  intros Htitle Hparen Hne Hall. rewrite parse_book_info_eq.
  unfold format_header. change (py " (") with [SPACE; LPAREN].
  replace (title ++ [SPACE; LPAREN] ++ join (py ", ") authors ++ [RPAREN])
    with ((title ++ [SPACE]) ++ LPAREN :: (join (py ", ") authors ++ [RPAREN]))
    by (by rewrite <- !app_assoc).
  assert (forall c : N, c ∈ join (py ", ") authors ->
            c = COMMA \/ c = SPACE \/ exists a, a ∈ authors /\ c ∈ a) as Hjoin.
  { intros c [Hc|Hc]%elem_join_inv; [|by right; right].
    change (py ", ") with [COMMA; SPACE] in Hc. set_solver. }
  rewrite Forall_forall in Hall.
  assert (LPAREN ∉ join (py ", ") authors) as HnoL.
  { intros [?|[?|(a & Ha & Hc)]]%Hjoin; [discriminate|discriminate|].
    by destruct (Hall a Ha) as (_ & ? & _). }
  assert (RPAREN ∉ join (py ", ") authors) as HnoR.
  { intros [?|[?|(a & Ha & Hc)]]%Hjoin; [discriminate|discriminate|].
    by destruct (Hall a Ha) as (_ & _ & ? & _). }
  rewrite before_first_spec, after_last_spec.
  2:{ rewrite elem_of_app. intros [?|Hin]; [done|].
      apply list_elem_of_singleton in Hin. done. }
  2:{ rewrite elem_of_app. intros [?|Hin]; [done|].
      apply list_elem_of_singleton in Hin. done. }
  rewrite strip_before_space by done. f_equal.
  unfold rstrip_rparen.
  rewrite (rstrip_by_spec _ _ (join (py ", ") authors) [RPAREN]); [|done|..].
  2:{ repeat constructor. }
  2:{ intros x Hx. apply N.eqb_neq. intros <-. apply HnoR.
      destruct (join (py ", ") authors) as [|y l] using rev_ind; [done|].
      rewrite last_snoc in Hx. injection Hx as ->. set_solver. }
  destruct authors as [|a rest]; [done|].
  rewrite <- (app_nil_l (join _ _)), split_join_comma.
  - simpl. f_equal; [by apply (Hall a); left|].
    rewrite map_map. rewrite <- (map_id rest) at 2. apply map_ext_in.
    intros b Hb. apply strip_after_space, (Hall b). right.
    by apply list_elem_of_In.
  - apply Forall_forall. intros b Hb. by apply (Hall b).
  - by intros ?%elem_of_nil.
Qed.

(** X3: a header written as [Title (Author One, Author Two)] is read back as
    that title and those authors, when the title and the authors are trimmed
    and have no parenthesis in them (no opening one, for the title) and the
    authors have no comma. *)
Theorem parse_book_info_round_trip (title : pystr) (authors : list pystr) :
  strip title = title ->
  LPAREN ∉ title ->
  authors <> [] ->
  Forall (fun a : pystr =>
            strip a = a /\ (LPAREN ∉ a) /\ (RPAREN ∉ a) /\ (COMMA ∉ a)) authors ->
  parse_book_info (format_header title authors) = (title, authors).
Proof. intros Htitle Hparen Hne Hall. by apply format_header_parsed. Qed.

(** X4: whatever the header line, the title [parse_book_info] returns is
    trimmed and has no opening parenthesis, there is at least one author
    (possibly the empty string), and every author is trimmed and has neither
    a comma nor an opening parenthesis. *)
Theorem parse_book_info_shape (book_info : pystr) :
  strip (fst (parse_book_info book_info)) = fst (parse_book_info book_info)
  /\ (LPAREN ∉ fst (parse_book_info book_info))
  /\ snd (parse_book_info book_info) <> []
  /\ Forall (fun a : pystr => strip a = a /\ (COMMA ∉ a) /\ (LPAREN ∉ a))
       (snd (parse_book_info book_info)).
Proof.
  rewrite parse_book_info_eq. cbn [fst snd].
  split; [apply strip_idem|]. split.
  - intros Hin%strip_subset.
    pose proof (take_while_Forall (is_not LPAREN) book_info) as Hall.
    rewrite Forall_forall in Hall. apply Hall in Hin.
    by rewrite is_not_same in Hin.
  - split.
    + pose proof (split_not_nil [COMMA]
                    (rstrip_rparen (after_last LPAREN book_info))).
      by destruct (split _ _).
    + apply Forall_forall. intros a Ha.
      apply list_elem_of_In, in_map_iff in Ha as (piece & <- & Hpiece).
      apply list_elem_of_In in Hpiece.
      split; [apply strip_idem|]. split.
      * intros Hin%strip_subset.
        pose proof (split_pieces_free [COMMA]
                      (rstrip_rparen (after_last LPAREN book_info))) as Hfree.
        rewrite Forall_forall in Hfree.
        apply (Hfree ltac:(done) piece Hpiece). by apply occurs_char.
      * intros Hin%strip_subset.
        eapply split_piece_subset in Hin; [|exact Hpiece].
        apply rstrip_by_subset in Hin. unfold after_last in Hin.
        rewrite elem_rev in Hin.
        pose proof (take_while_Forall (is_not LPAREN) (rev book_info)) as Hall.
        rewrite Forall_forall in Hall. apply Hall in Hin.
        by rewrite is_not_same in Hin.
Qed.

Section FurtherProperties.
Context `{RT : Runtime}.

(** ** Decimal numbers *)









(** ** Searching a formatted line *)


Lemma re_search_skip1 {A} a (match_at : pystr -> option A) c s :
  needs_first a match_at -> c <> a ->
  re_search match_at (c :: s) = re_search match_at s.
Proof. intros [_ H] Hc. simpl. by rewrite H. Qed.

Lemma re_search_skip_run {A} a (match_at : pystr -> option A) (run s : pystr) :
  needs_first a match_at -> a ∉ run ->
  re_search match_at (run ++ s) = re_search match_at s.
Proof.
  intros Hm Ha. induction run as [|c run IH]; [done|].
  cbn [app]. rewrite (re_search_skip1 a) by set_solver. apply IH. set_solver.
Qed.

Lemma re_search_absent {A} a (match_at : pystr -> option A) (s : pystr) :
  needs_first a match_at -> a ∉ s -> re_search match_at s = None.
Proof.
  intros Hm Ha. rewrite <- (app_nil_r s), (re_search_skip_run a) by done.
  simpl. by destruct Hm as [-> _].
Qed.

Lemma after_prefix_first a pre c s :
  c <> a -> after_prefix (a :: pre) (c :: s) = None.
Proof. intros Hc. simpl. by apply not_eq_sym, N.eqb_neq in Hc as ->. Qed.

Lemma needs_first_entry_type : needs_first 89%N match_entry_type.
Proof.
  split; [done|]. intros c s Hc. unfold match_entry_type. eval_py.
  by rewrite (after_prefix_first 89%N) by done.
Qed.













(** ** A formatted metadata line is read back *)








(** ** The lines of a block *)

Lemma split_lines_cons (line rest : pystr) :
  NEWLINE ∉ line ->
  split [NEWLINE] (line ++ NEWLINE :: rest) = line :: split [NEWLINE] rest.
Proof. apply split_char_cons. Qed.

Lemma split_length_pos sep s : 0 < length (split sep s).
Proof. pose proof (split_not_nil sep s). destruct (split sep s); simpl; [done|lia]. Qed.

Lemma parse_entry_lines_eq
    (header metadata rest : pystr) (i : nat) (st : KindleParser) :
  NEWLINE ∉ header ->
  NEWLINE ∉ metadata ->
  parse_entry (header ++ NEWLINE :: metadata ++ NEWLINE :: rest) i st
  = match parse_metadata (strip metadata) with
    | inl e => (inl e, st)
    | inr meta =>
        store_entry (fst (parse_book_info (strip header)))
          (snd (parse_book_info (strip header))) (strip rest) meta st
    end.
Proof.
  intros Hh Hm. unfold parse_entry.
  rewrite !split_lines_cons by done.
  pose proof (split_length_pos [NEWLINE] rest) as Hlen.
  cbn [length nth drop].
  replace (S (S (length (split [NEWLINE] rest))) <? 2) with false
    by (symmetry; apply Nat.ltb_ge; lia).
  replace (2 <? S (S (length (split [NEWLINE] rest)))) with true
    by (symmetry; apply Nat.ltb_lt; lia).
  rewrite drop_0, join_split.
  destruct (parse_book_info (strip header)) as [t a].
  by destruct (parse_metadata (strip metadata)) as [e|[[[ty p] l] d]].
Qed.

(** X6: the first line of a block is its header, the second its metadata
    line, and the content is all that follows the second newline, trimmed,
    with the newlines inside it kept; a block of two lines has the empty
    content.  An error of [parse_metadata] is raised as it is, before the
    parser is touched. *)
Theorem parse_entry_lines
    (header metadata : pystr) (i : nat) (st : KindleParser) :
  NEWLINE ∉ header ->
  NEWLINE ∉ metadata ->
  parse_entry (header ++ NEWLINE :: metadata) i st
    = match parse_metadata (strip metadata) with
      | inl e => (inl e, st)
      | inr meta =>
          store_entry (fst (parse_book_info (strip header)))
            (snd (parse_book_info (strip header))) [] meta st
      end
  /\ forall rest,
       parse_entry (header ++ NEWLINE :: metadata ++ NEWLINE :: rest) i st
       = match parse_metadata (strip metadata) with
         | inl e => (inl e, st)
         | inr meta =>
             store_entry (fst (parse_book_info (strip header)))
               (snd (parse_book_info (strip header))) (strip rest) meta st
         end.
Proof.
  intros Hh Hm. split; [|intros rest]; unfold parse_entry.
  - rewrite split_lines_cons by done.
    rewrite (split_no_occurrence [NEWLINE] metadata) by by rewrite occurs_char.
    cbn [length Nat.ltb Nat.leb nth drop].
    destruct (parse_book_info (strip header)) as [t a].
    by destruct (parse_metadata (strip metadata)) as [e|[[[ty p] l] d]].
  - by apply parse_entry_lines_eq.
Qed.








(** ** What an entry does to the parser *)

Lemma set_books_same (st : KindleParser) : set_books (books st) st = st.
Proof. by destruct st. Qed.

Lemma get_or_create_book_result t a st :
  get_or_create_book t a st
  = (inr (book_or_new (books st) t a),
     set_books (<[t := book_or_new (books st) t a]> (books st)) st).
Proof.
  unfold get_or_create_book, book_or_new.
  destruct (books st !! t) as [b|] eqn:E; simpl; [|done].
  by rewrite insert_id, set_books_same.
Qed.

Lemma add_highlight_result t a content loc d page st :
  add_highlight t a content loc d page st
  = (inr tt,
     set_books
       (<[t := set_highlights
                 (highlights (book_or_new (books st) t a) ++
                    [{| hl_content := content; hl_date_added := d;
                        hl_page := page; hl_note := None;
                        hl_location := loc |}])
                 (book_or_new (books st) t a)]> (books st)) st).
Proof.
  unfold add_highlight, bind. rewrite get_or_create_book_result.
  unfold store_book, modify, set_books. simpl. by rewrite insert_insert_eq.
Qed.

Lemma add_bookmark_result t a loc d page st :
  add_bookmark t a loc d page st
  = (inr tt,
     set_books
       (<[t := set_bookmarks
                 (bookmarks (book_or_new (books st) t a) ++
                    [{| bm_location := loc; bm_date_added := d;
                        bm_page := page |}])
                 (book_or_new (books st) t a)]> (books st)) st).
Proof.
  unfold add_bookmark, bind. rewrite get_or_create_book_result.
  unfold store_book, modify, set_books. simpl. by rewrite insert_insert_eq.
Qed.

Lemma add_note_result t a content d loc page st :
  add_note t a content d loc page st
  = match next_match
            {| note_content := content; note_date_added := d;
               note_page := page; note_location := loc |}
            (rev (highlights (book_or_new (books st) t a))) with
    | inl e => (inl e, st)
    | inr (Some k) =>
        (inr tt,
         set_books
           (<[t := set_highlights
                     (alter
                        (set_note
                           {| note_content := content; note_date_added := d;
                              note_page := page; note_location := loc |})
                        (length (highlights (book_or_new (books st) t a))
                         - 1 - k)
                        (highlights (book_or_new (books st) t a)))
                     (book_or_new (books st) t a)]> (books st)) st)
    | inr None =>
        (inr tt,
         set_books
           (<[t := set_notes
                     (notes (book_or_new (books st) t a) ++
                        [{| note_content := content; note_date_added := d;
                            note_page := page; note_location := loc |}])
                     (book_or_new (books st) t a)]> (books st)) st)
    end.
Proof.
  unfold add_note, bind. rewrite get_or_create_book_result. cbv beta zeta.
  destruct (next_match _ _) as [e|[k|]] eqn:E;
    unfold store_book, modify, raise, set_books; simpl;
    rewrite ?insert_insert_eq; try done.
  unfold book_or_new in *.
  destruct (books st !! t) as [b|] eqn:Eb; simpl in *; [|done].
  rewrite insert_id by done. by destruct st.
Qed.

Lemma next_match_Some note hs k :
  next_match note hs = inr (Some k) ->
  exists h, hs !! k = Some h /\ same_start h note = inr true.
Proof.
  revert k. induction hs as [|h hs IH]; intros k; simpl; [done|].
  destruct (same_start h note) as [e|[|]] eqn:E; [done| |].
  - intros [= <-]. by exists h.
  - destruct (next_match note hs) as [e|[k'|]]; [done| |done].
    intros [= <-]. destruct (IH k' eq_refl) as (h' & Hh' & Hs). by exists h'.
Qed.

Lemma rev_lookup {A} (l : list A) k x :
  rev l !! k = Some x -> l !! (length l - 1 - k) = Some x.
Proof.
  rewrite rev_alt. intros H.
  assert (reverse l !! k = Some x) as Hr by exact H.
  apply reverse_lookup_Some in Hr as [Hr Hlt].
  rewrite <- Hr. f_equal. lia.
Qed.

(** What [store_entry] does: it raises and leaves the parser as it was, or
    returns and leaves it as it was, or returns after one step of the book
    of its title. *)
Lemma store_entry_outcome t a content meta st :
  (exists e, store_entry t a content meta st = (inl e, st))
  \/ store_entry t a content meta st = (inr tt, st)
  \/ exists b',
       book_step (book_or_new (books st) t a) b'
       /\ store_entry t a content meta st
          = (inr tt, set_books (<[t := b']> (books st)) st).
Proof.
  destruct meta as [[[ty page] loc] d]. unfold store_entry.
  repeat case_bool_decide.
  - right; right. rewrite add_highlight_result. eexists. split; [|done].
    by constructor.
  - rewrite add_note_result.
    destruct (next_match _ _) as [e|[k|]] eqn:E.
    + left. by exists e.
    + right; right. eexists. split; [|done].
      apply next_match_Some in E as (h & Hh & Hs).
      apply rev_lookup in Hh. by econstructor.
    + right; right. eexists. split; [|done]. constructor.
  - right; right. rewrite add_bookmark_result. eexists. split; [|done].
    constructor.
  - right; by left.
Qed.

Lemma parse_entry_outcome entry i st :
  (exists e, parse_entry entry i st = (inl e, st))
  \/ parse_entry entry i st = (inr tt, st)
  \/ exists t a b',
       book_step (book_or_new (books st) t a) b'
       /\ parse_entry entry i st
          = (inr tt, set_books (<[t := b']> (books st)) st).
Proof.
  unfold parse_entry.
  destruct (length (split [NEWLINE] entry) <? 2); [left; by eexists|].
  destruct (parse_book_info _) as [t a].
  destruct (parse_metadata _) as [e|meta]; [left; by eexists|].
  destruct (store_entry_outcome t a
              (if 2 <? length (split [NEWLINE] entry)
               then strip (join [NEWLINE] (drop 2 (split [NEWLINE] entry)))
               else []) meta st) as [[e He]|[He|(b' & Hb & He)]];
    destruct meta as [[[ty page] loc] d]; unfold store_entry in He.
  - left. by exists e.
  - right; by left.
  - right; right. by exists t, a, b'.
Qed.

(** X8: when [parse_entry] raises, whatever the error, the parser is as it
    was before the call: no book was created or changed. *)
Theorem parse_entry_exception_safe
    (entry : pystr) (i : nat) (st st' : KindleParser) (e : exn) :
  parse_entry entry i st = (inl e, st') -> st' = st.
Proof.
  intros H.
  destruct (parse_entry_outcome entry i st)
    as [[e' He]|[He|(t & a & b' & _ & He)]]; congruence.
Qed.

Lemma parse_block_outcome ie st :
  parse_block ie st = (inr tt, st)
  \/ (exists t a b',
        book_step (book_or_new (books st) t a) b'
        /\ parse_block ie st
           = (inr tt, set_books (<[t := b']> (books st)) st))
  \/ (exists msg,
        parse_block ie st
        = (inr tt,
           set_errors
             (errors st ++
                [{| line_number := fst ie; error_message := msg |}]) st)).
Proof.
  unfold parse_block. destruct (nonempty _); [|by left].
  unfold try_except.
  destruct (parse_entry_outcome (strip (snd ie)) (fst ie) st)
    as [[e ->]|[->|(t & a & b' & Hb & ->)]].
  - right; right. by exists (exn_str e).
  - by left.
  - right; left. by exists t, a, b'.
Qed.

(** X9: a piece of the text does one of three things to the parser:
    nothing; one step of one book (a highlight, note or bookmark appended,
    or a note attached to a highlight with its start), the book made new if
    its title has none; or one error with the index of the piece appended,
    and nothing else.  It never raises. *)
Theorem parse_block_one_step (ie : nat * pystr) (st : KindleParser) :
  fst (parse_block ie st) = inr tt
  /\ (snd (parse_block ie st) = st
      \/ (exists t a b',
            book_step (book_or_new (books st) t a) b'
            /\ snd (parse_block ie st)
               = set_books (<[t := b']> (books st)) st)
      \/ (exists msg,
            snd (parse_block ie st)
            = set_errors
                (errors st ++
                   [{| line_number := fst ie; error_message := msg |}]) st)).
Proof.
  destruct (parse_block_outcome ie st)
    as [->|[(t & a & b' & Hb & ->)|(msg & ->)]]; (split; [done|]).
  - by left.
  - right; left. by exists t, a, b'.
  - right; right. by exists msg.
Qed.

Lemma parse_block_step ie st :
  snd (parse_block ie st) = st \/ parser_step st (snd (parse_block ie st)).
Proof.
  destruct (parse_block_outcome ie st)
    as [->|[(t & a & b' & Hb & ->)|(msg & ->)]]; [by left|right..].
  - by econstructor.
  - constructor.
Qed.

Lemma for_each_parse_block_steps blocks st :
  rtc parser_step st (snd (for_each parse_block blocks st)).
Proof.
  revert st. induction blocks as [|ie blocks IH]; intros st; [done|].
  rewrite for_each_parse_block_cons.
  destruct (parse_block_step ie st) as [->|Hstep]; [apply IH|].
  eapply rtc_l; [exact Hstep|apply IH].
Qed.

Lemma parse_clippings_steps content st :
  rtc parser_step st (snd (parse_clippings content st)).
Proof. apply for_each_parse_block_steps. Qed.

Lemma steps_preserve (P : KindleParser -> Prop) st st' :
  (forall s s', P s -> parser_step s s' -> P s') ->
  rtc parser_step st st' -> P st -> P st'.
Proof. intros Hstep. induction 1; eauto. Qed.

(** ** Invariants of a run *)

Lemma book_or_new_Some bs t a b :
  bs !! t = Some b -> book_or_new bs t a = b.
Proof. unfold book_or_new. by intros ->. Qed.

Lemma book_or_new_None bs t a :
  bs !! t = None ->
  book_or_new bs t a
  = {| title := t; authors := a; highlights := []; notes := [];
       bookmarks := [] |}.
Proof. unfold book_or_new. by intros ->. Qed.

Lemma book_step_title b b' : book_step b b' -> title b' = title b.
Proof. by destruct 1. Qed.

Lemma keyed_by_title_step st st' :
  keyed_by_title st -> parser_step st st' -> keyed_by_title st'.
Proof.
  intros Hinv [t a b' Hstep|e] t0 b; simpl; [|apply Hinv].
  destruct (decide (t = t0)) as [->|Hne].
  - rewrite lookup_insert_eq. intros [= <-].
    rewrite (book_step_title _ _ Hstep).
    destruct (books st !! t0) as [b0|] eqn:E.
    + rewrite (book_or_new_Some _ _ _ _ E). by apply Hinv.
    + by rewrite (book_or_new_None _ _ _ E).
  - rewrite lookup_insert_ne by done. apply Hinv.
Qed.

Lemma new_parser_keyed_by_title : keyed_by_title new_parser.
Proof.
  intros t b Hb. unfold new_parser in Hb. cbn [books] in Hb.
  by rewrite lookup_empty in Hb.
Qed.

Lemma new_parser_attached_notes_match : attached_notes_match new_parser.
Proof.
  intros t b h n Hb. unfold new_parser in Hb. cbn [books] in Hb.
  by rewrite lookup_empty in Hb.
Qed.

(** X10: in a parser that starts without books, or with every book stored
    under its own title, every book is stored under its own title after any
    text is parsed. *)
Theorem parse_clippings_keyed_by_title (content : pystr) (st : KindleParser) :
  keyed_by_title st -> keyed_by_title (snd (parse_clippings content st)).
Proof.
  intros Hinv.
  eapply (steps_preserve keyed_by_title);
    [apply keyed_by_title_step|apply parse_clippings_steps|done].
Qed.

Lemma same_start_true h note :
  same_start h note = inr true ->
  exists hloc nloc,
    hl_location h = Some hloc /\ note_location note = Some nloc
    /\ start hloc = start nloc.
Proof.
  unfold same_start.
  destruct (hl_location h) as [hloc|]; [|done].
  destruct (note_location note) as [nloc|]; [|done].
  intros [= H%Z.eqb_eq]. by exists hloc, nloc.
Qed.

Lemma book_or_new_highlight bs t a h :
  h ∈ highlights (book_or_new bs t a) ->
  exists b, bs !! t = Some b /\ h ∈ highlights b.
Proof.
  unfold book_or_new. destruct (bs !! t) as [b|]; simpl.
  - intros. by exists b.
  - by intros ?%elem_of_nil.
Qed.

Lemma attached_notes_match_step st st' :
  attached_notes_match st -> parser_step st st' -> attached_notes_match st'.
Proof.
  intros Hinv [t a b' Hstep|e] t0 b h n; simpl; [|apply Hinv].
  destruct (decide (t = t0)) as [->|Hne];
    [|rewrite lookup_insert_ne by done; apply Hinv].
  rewrite lookup_insert_eq. intros [= <-] Hin Hnote.
  assert (forall h0, h0 ∈ highlights (book_or_new (books st) t0 a) ->
            hl_note h0 = Some n ->
            exists hloc nloc,
              hl_location h0 = Some hloc /\ note_location n = Some nloc
              /\ start hloc = start nloc) as Hold.
  { intros h0 (b0 & Hb0 & Hh0)%book_or_new_highlight. by apply (Hinv t0 b0). }
  destruct Hstep as [hnew Hnone|note i h0 Hi Hsame| |]; simpl in Hin;
    [| |by apply Hold..].
  - apply elem_of_app in Hin as [Hin|Hin]; [by apply Hold|].
    apply list_elem_of_singleton in Hin. congruence.
  - apply list_elem_of_lookup in Hin as [j Hj].
    destruct (decide (i = j)) as [<-|Hij].
    + rewrite list_lookup_alter_eq, Hi in Hj. injection Hj as <-.
      simpl in Hnote. injection Hnote as <-. by apply same_start_true.
    + rewrite list_lookup_alter_ne in Hj by done.
      apply Hold; [|done]. apply list_elem_of_lookup. by exists j.
Qed.

(** X11: a note is only ever attached to a highlight that has a location
    with the same start as the location of the note: if that holds of the
    parser before a text is parsed (as it does of a new parser), it holds
    after. *)
Theorem parse_clippings_attached_notes_match
    (content : pystr) (st : KindleParser) :
  attached_notes_match st ->
  attached_notes_match (snd (parse_clippings content st)).
Proof.
  intros Hinv.
  eapply (steps_preserve attached_notes_match);
    [apply attached_notes_match_step|apply parse_clippings_steps|done].
Qed.

Lemma without_note_alter note i hs :
  List.map without_note (alter (set_note note) i hs)
  = List.map without_note hs.
Proof.
  revert i. induction hs as [|h hs IH]; intros [|i]; simpl; [done..| |].
  - done.
  - f_equal. apply IH.
Qed.

Lemma book_grows_refl b : book_grows b b.
Proof. by repeat split. Qed.

Lemma book_grows_trans b1 b2 b3 :
  book_grows b1 b2 -> book_grows b2 b3 -> book_grows b1 b3.
Proof.
  intros (?&?&?&?&?) (?&?&?&?&?).
  repeat split; try congruence; by etrans.
Qed.

Lemma book_step_grows b b' : book_step b b' -> book_grows b b'.
Proof.
  destruct 1; repeat split; simpl; try done.
  - rewrite map_app. by apply prefix_app_r.
  - by rewrite without_note_alter.
  - by apply prefix_app_r.
  - by apply prefix_app_r.
Qed.

Lemma parser_grows_refl st : parser_grows st st.
Proof.
  split; [|done]. intros t b Hb. exists b. split; [done|apply book_grows_refl].
Qed.

Lemma parser_grows_trans st1 st2 st3 :
  parser_grows st1 st2 -> parser_grows st2 st3 -> parser_grows st1 st3.
Proof.
  intros (H12 & He12 & Hp12 & Ht12) (H23 & He23 & Hp23 & Ht23).
  split; [|split; [by etrans|split; congruence]].
  intros t b Hb. destruct (H12 t b Hb) as (b2 & Hb2 & Hg2).
  destruct (H23 t b2 Hb2) as (b3 & Hb3 & Hg3).
  exists b3. split; [done|by eapply book_grows_trans].
Qed.

Lemma parser_step_grows st st' : parser_step st st' -> parser_grows st st'.
Proof.
  intros [t a b' Hstep|e]; (split; [|split; [|done]]); simpl.
  - intros t0 b Hb. destruct (decide (t = t0)) as [->|Hne].
    + exists b'. rewrite lookup_insert_eq. split; [done|].
      rewrite (book_or_new_Some _ _ _ _ Hb) in Hstep.
      by apply book_step_grows.
    + exists b. rewrite lookup_insert_ne by done.
      split; [done|apply book_grows_refl].
  - done.
  - intros t0 b Hb. exists b. split; [done|apply book_grows_refl].
  - by apply prefix_app_r.
Qed.

(** X12: parsing only adds.  Every book the parser had is still there, with
    its title and authors; its highlights, but for the notes attached to
    them, its notes and its bookmarks are the beginning of the lists it has
    afterwards; the errors it had are the beginning of the errors it has
    afterwards; the ledger is untouched. *)
Theorem parse_clippings_grows (content : pystr) (st : KindleParser) :
  parser_grows st (snd (parse_clippings content st)).
Proof.
  pose proof (parse_clippings_steps content st) as Hsteps.
  induction Hsteps as [st|st1 st2 st3 Hstep _ IH];
    [apply parser_grows_refl|].
  eapply parser_grows_trans; [by apply parser_step_grows|exact IH].
Qed.

(** ** Errors of a run *)

Lemma parse_entry_logged_outcome ie st :
  exists st1,
    parse_entry_logged ie st = (inr tt, st1)
    /\ (errors st1 = errors st
        \/ exists msg,
             errors st1
             = errors st ++ [{| line_number := fst ie; error_message := msg |}]).
Proof.
  unfold parse_entry_logged, try_except.
  destruct (parse_entry_outcome (snd ie) (fst ie) st)
    as [[e ->]|[->|(t & a & b' & _ & ->)]]; eexists; (split; [done|]).
  - right. by exists (exn_str e).
  - by left.
  - by left.
Qed.

Lemma for_each_logged_errors blocks st :
  exists new,
    errors (snd (for_each parse_entry_logged blocks st)) = errors st ++ new
    /\ List.map line_number new `sublist_of` List.map fst blocks.
Proof.
  revert st. induction blocks as [|ie blocks IH]; intros st.
  - exists []. by rewrite app_nil_r.
  - cbn [for_each]. unfold bind.
    destruct (parse_entry_logged_outcome ie st) as (st1 & -> & Herr).
    destruct (IH st1) as (new & -> & Hsub).
    destruct Herr as [->|[msg ->]].
    + exists new. split; [done|]. by apply sublist_cons.
    + exists ({| line_number := fst ie; error_message := msg |} :: new).
      rewrite <- app_assoc. split; [done|]. simpl. by apply sublist_skip.
Qed.

(** X13: the errors a run adds come after the errors the parser had, at
    most one for a block, in the order of the blocks, each with the index of
    its block. *)
Theorem parse_clippings_errors (content : pystr) (st : KindleParser) :
  exists new,
    errors (snd (parse_clippings content st)) = errors st ++ new
    /\ List.map line_number new
         `sublist_of` List.map fst (entry_blocks (clean_text content)).
Proof.
  rewrite parse_clippings_entry_blocks. apply for_each_logged_errors.
Qed.

(** X19: a text whose pieces between delimiters are all blank (the empty
    text, white space, delimiters with nothing between them) leaves the
    parser as it was and adds no error. *)
Theorem blank_text_changes_nothing (content : pystr) (st : KindleParser) :
  Forall (fun piece => strip piece = [])
    (split DELIM (clean_text content)) ->
  parse_clippings content st = (inr tt, st).
Proof.
  intros Hblank. rewrite parse_clippings_entry_blocks.
  assert (entry_blocks (clean_text content) = []) as ->; [|done].
  unfold entry_blocks, enumerate. generalize 0.
  induction Hblank as [|piece pieces Hp _ IH]; intros i0; [done|].
  cbn [enumerate_from List.map List.filter fst snd]. rewrite Hp. apply IH.
Qed.

(** ** One entry, one title *)

(** X14: an entry added under one title leaves the book of every other
    title, the errors and the ledger as they were. *)
Theorem entry_touches_one_title
    (t t' : pystr) (a : list pystr) (content : pystr)
    (loc : option Location) (d : datetime) (page : option Z)
    (st : KindleParser) :
  t' <> t ->
  (books (snd (add_highlight t a content loc d page st)) !! t'
     = books st !! t'
   /\ errors (snd (add_highlight t a content loc d page st)) = errors st
   /\ processed_entries (snd (add_highlight t a content loc d page st))
      = processed_entries st)
  /\ (books (snd (add_note t a content d loc page st)) !! t'
        = books st !! t'
      /\ errors (snd (add_note t a content d loc page st)) = errors st
      /\ processed_entries (snd (add_note t a content d loc page st))
         = processed_entries st)
  /\ (books (snd (add_bookmark t a loc d page st)) !! t' = books st !! t'
      /\ errors (snd (add_bookmark t a loc d page st)) = errors st
      /\ processed_entries (snd (add_bookmark t a loc d page st))
         = processed_entries st).
Proof.
  intros Hne.
  rewrite add_highlight_result, add_note_result, add_bookmark_result.
  split; [|split].
  - simpl. by rewrite lookup_insert_ne.
  - destruct (next_match _ _) as [e|[k|]]; simpl;
      by rewrite ?lookup_insert_ne.
  - simpl. by rewrite lookup_insert_ne.
Qed.


(** X16: a note added right after a highlight of the same title, and with
    the same location start, is attached to that highlight, whatever the
    other highlights of the book are (with or without a location); nothing
    else changes. *)
Theorem note_follows_highlight
    (t : pystr) (a a' : list pystr) (content content' : pystr)
    (loc loc' : Location) (d d' : datetime) (page page' : option Z)
    (st : KindleParser) :
  start loc = start loc' ->
  add_note t a' content' d' (Some loc') page'
    (snd (add_highlight t a content (Some loc) d page st))
  = (inr tt,
     set_books
       (<[t := set_highlights
                 (highlights (book_or_new (books st) t a) ++
                    [{| hl_content := content; hl_date_added := d;
                        hl_page := page;
                        hl_note :=
                          Some {| note_content := content';
                                  note_date_added := d';
                                  note_page := page';
                                  note_location := Some loc' |};
                        hl_location := Some loc |}])
                 (book_or_new (books st) t a)]> (books st)) st).
Proof.
  intros Hstart. rewrite add_highlight_result, add_note_result.
  cbn [snd books set_books].
  rewrite (book_or_new_Some _ t a' _ (lookup_insert_eq _ _ _)).
  cbn [highlights set_highlights].
  rewrite rev_app_distr. cbn [rev app next_match same_start hl_location
    note_location].
  rewrite (proj2 (Z.eqb_eq _ _) Hstart).
  rewrite insert_insert_eq, length_app. cbn [length].
  replace (length (highlights (book_or_new (books st) t a)) + 1 - 1 - 0)
    with (length (highlights (book_or_new (books st) t a)) + 0) by lia.
  by rewrite alter_app_r.
Qed.

(** ** The book registry and the ledger *)

(** X18: [get_or_create_book] returns the book that is stored under the
    title when it returns; a second call, with whatever authors, returns the
    same book and changes nothing; a book it creates has the given title and
    authors and empty lists; the books of other titles, the errors and the
    ledger are as they were. *)
Theorem get_or_create_book_spec
    (t : pystr) (a : list pystr) (st : KindleParser) :
  exists b st',
    get_or_create_book t a st = (inr b, st')
    /\ books st' !! t = Some b
    /\ (forall a', get_or_create_book t a' st' = (inr b, st'))
    /\ (forall t', t' <> t -> books st' !! t' = books st !! t')
    /\ (books st !! t = None ->
        b = {| title := t; authors := a; highlights := []; notes := [];
               bookmarks := [] |})
    /\ errors st' = errors st
    /\ processed_entries st' = processed_entries st
    /\ last_processed_timestamp st' = last_processed_timestamp st.
Proof.
  unfold get_or_create_book at 1.
  destruct (books st !! t) as [b|] eqn:E; eexists _, _; (split; [done|]).
  - split; [done|]. split.
    + intros a'. unfold get_or_create_book. by rewrite E.
    + by repeat split.
  - simpl. rewrite lookup_insert_eq. split; [done|]. split.
    + intros a'. unfold get_or_create_book. simpl. by rewrite lookup_insert_eq.
    + repeat split; try done. intros t' Hne. by rewrite lookup_insert_ne.
Qed.

(** X17: after [mark_as_processed] the entry is processed, every entry that
    was processed still is, no other entry has become processed, the last
    timestamp is the time of the call, and the books and errors are as they
    were; [is_processed] changes nothing. *)
Theorem mark_as_processed_spec
    (now : datetime) (entry_id : pystr) (st : KindleParser) :
  fst (is_processed entry_id (snd (mark_as_processed now entry_id st)))
    = inr true
  /\ (forall other,
        fst (is_processed other (snd (mark_as_processed now entry_id st)))
        = inr (bool_decide (other = entry_id)
               || bool_decide (other ∈ processed_entries st)))
  /\ last_processed_timestamp (snd (mark_as_processed now entry_id st))
     = Some now
  /\ books (snd (mark_as_processed now entry_id st)) = books st
  /\ errors (snd (mark_as_processed now entry_id st)) = errors st
  /\ (forall other, snd (is_processed other st) = st).
Proof.
  unfold is_processed, mark_as_processed, modify. simpl.
  split; [by rewrite bool_decide_eq_true_2 by set_solver|].
  split; [|done]. intros other. f_equal.
  destruct (decide (other = entry_id)) as [->|Hne].
  - rewrite !bool_decide_eq_true_2 by set_solver. done.
  - rewrite (bool_decide_eq_false_2 (other = entry_id)) by done. simpl.
    apply bool_decide_ext. set_solver.
Qed.

End FurtherProperties.

(** ** Instances of the further properties *)

Lemma parse_book_info_round_trip_witness :
  parse_book_info (format_header (py "Dune") [py "Herbert"; py "Frank"])
  = (py "Dune", [py "Herbert"; py "Frank"]).
Proof.
  apply parse_book_info_round_trip;
    [by vm_compute|decide_by_computation|done|].
  repeat constructor; first [by vm_compute|decide_by_computation].
Defined.


Lemma parse_entry_lines_witness :
  parse_entry (RT:=sample_runtime)
    (py "Dune (Frank Herbert)" ++ NEWLINE :: clip_metadata) 0 new_parser
  = (inr tt, new_parser).
Proof.
  destruct (parse_entry_lines (RT:=sample_runtime)
              (py "Dune (Frank Herbert)") clip_metadata 0 new_parser)
    as [-> _]; [decide_by_computation..|].
  by vm_compute.
Defined.


Lemma parse_entry_exception_safe_witness :
  parse_entry (RT:=sample_runtime) (py "only one line") 4 dune_parser
    = (inl (ValueError (py "Invalid entry format at line 4")), dune_parser)
  /\ dune_parser = dune_parser.
Proof.
  assert (parse_entry (RT:=sample_runtime) (py "only one line") 4 dune_parser
          = (inl (ValueError (py "Invalid entry format at line 4")),
             dune_parser)) as H by (by vm_compute).
  split; [exact H|].
  exact (parse_entry_exception_safe (RT:=sample_runtime) _ _ _ _ _ H).
Defined.

Lemma parse_clippings_keyed_by_title_witness :
  keyed_by_title (RT:=sample_runtime) new_parser
  /\ keyed_by_title (RT:=sample_runtime) dune_parser.
Proof.
  split; [apply new_parser_keyed_by_title|].
  apply (parse_clippings_keyed_by_title (RT:=sample_runtime)
           dune_clippings new_parser), new_parser_keyed_by_title.
Defined.

Lemma parse_clippings_attached_notes_match_witness :
  attached_notes_match (RT:=sample_runtime) new_parser
  /\ attached_notes_match (RT:=sample_runtime) dune_parser.
Proof.
  split; [apply new_parser_attached_notes_match|].
  apply (parse_clippings_attached_notes_match (RT:=sample_runtime)
           dune_clippings new_parser), new_parser_attached_notes_match.
Defined.

Lemma blank_text_changes_nothing_witness :
  parse_clippings (RT:=sample_runtime)
    (text_of_lines [""; "=========="; "  "; "=========="; ""]%string)
    dune_parser
  = (inr tt, dune_parser).
Proof.
  apply (blank_text_changes_nothing (RT:=sample_runtime)).
  vm_compute. repeat constructor.
Defined.

Lemma entry_touches_one_title_witness :
  books (snd (add_note (RT:=sample_runtime) (py "Emma") [py "Jane Austen"]
                (py "A note.") sample_timestamp (Some sample_location) None
                dune_parser)) !! py "Dune"
  = books dune_parser !! py "Dune".
Proof.
  destruct (entry_touches_one_title (RT:=sample_runtime)
              (py "Emma") (py "Dune") [py "Jane Austen"] (py "A note.")
              (Some sample_location) sample_timestamp None dune_parser)
    as (_ & (H & _) & _); [by vm_compute|exact H].
Defined.


Lemma note_follows_highlight_witness :
  fst (add_note (RT:=sample_runtime) (py "Dune") [py "Frank Herbert"]
         (py "A note.") sample_timestamp
         (Some {| start := 200; end_ := None |}) None
         (snd (add_highlight (RT:=sample_runtime) (py "Dune")
                 [py "Frank Herbert"] (py "A quote.")
                 (Some sample_location) sample_timestamp (Some 12%Z)
                 (snd (add_highlight (RT:=sample_runtime) (py "Dune")
                         [py "Frank Herbert"] (py "No location.") None
                         sample_timestamp None new_parser)))))
  = inr tt.
Proof.
  by rewrite (note_follows_highlight (RT:=sample_runtime) (py "Dune")
                [py "Frank Herbert"] [py "Frank Herbert"] (py "A quote.")
                (py "A note.") sample_location
                {| start := 200; end_ := None |}).
Defined.

Lemma add_note_attaches_witness :
  (fun book : Book (RT:=sample_runtime) =>
     (List.map (fun h => note_content <$> hl_note h) (highlights book),
      notes book)) <$>
    books (snd (add_note (RT:=sample_runtime) (py "Dune") []
                  (py "Second thoughts.") sample_timestamp
                  (Some {| start := 200; end_ := None |}) None dune_parser))
      !! py "Dune"
  = Some ([Some (py "Second thoughts.")], []).
Proof.
  rewrite (add_note_attaches (RT:=sample_runtime) (py "Dune") []
             (py "Second thoughts.") sample_timestamp
             {| start := 200; end_ := None |} None dune_parser dune_book []
             dune_highlight sample_location []);
    [by vm_compute..|constructor].
Defined.

Lemma add_note_unmatched_witness :
  (fun book : Book (RT:=sample_runtime) =>
     (List.map (fun h => note_content <$> hl_note h) (highlights book),
      List.map note_content (notes book))) <$>
    books (snd (add_note (RT:=sample_runtime) (py "Dune") []
                  (py "Elsewhere.") sample_timestamp
                  (Some {| start := 300; end_ := None |}) None dune_parser))
      !! py "Dune"
  = Some ([Some (py "Interesting symbolism.")], [py "Elsewhere."]).
Proof.
  rewrite (add_note_unmatched (RT:=sample_runtime) (py "Dune") []
             (py "Elsewhere.") sample_timestamp
             {| start := 300; end_ := None |} None dune_parser dune_book);
    [by vm_compute|by vm_compute|].
  repeat constructor. exists sample_location. by vm_compute.
Defined.

Lemma add_note_no_highlights_witness :
  (fun book : Book (RT:=sample_runtime) => List.map note_content (notes book))
    <$> books (snd (add_note (RT:=sample_runtime) (py "Emma") []
                      (py "No location.") sample_timestamp None None
                      emma_parser)) !! py "Emma"
  = Some [py "No location."].
Proof.
  rewrite (add_note_no_highlights (RT:=sample_runtime) (py "Emma") []
             (py "No location.") sample_timestamp None None emma_parser
             emma_book); by vm_compute.
Defined.

Lemma add_note_without_location_witness :
  add_note (RT:=sample_runtime) (py "Dune") [] (py "No location.")
    sample_timestamp None None dune_parser
  = (inl (AttributeError NO_START), dune_parser).
Proof.
  apply (add_note_without_location (RT:=sample_runtime) (py "Dune") []
           (py "No location.") sample_timestamp None dune_parser dune_book);
    by vm_compute.
Defined.

Lemma add_note_past_locationless_highlight_witness :
  add_note (RT:=sample_runtime) (py "Dune") [] (py "A note.")
    sample_timestamp (Some {| start := 200; end_ := None |}) None
    two_highlights_parser
  = (inl (AttributeError NO_START), two_highlights_parser).
Proof.
  apply (add_note_past_locationless_highlight (RT:=sample_runtime)
           (py "Dune") [] (py "A note.") sample_timestamp
           {| start := 200; end_ := None |} None two_highlights_parser
           two_highlights_book [dune_highlight]
           (@Build_Highlight sample_runtime (py "Fear is the mind-killer.")
              sample_timestamp (Some 13%Z) None None) []);
    [by vm_compute..|constructor].
Defined.
